(** * NIST spectra scraper and its supervisor: a shallow embedding

    Two Python programs are modelled here.

    - [Scraper] is "1) NIST Spectra Scraper.py": the rate limiter
      [rate_limited_request], the artifact fetchers [get_mol] and [get_jdx],
      and the checkpointed work loop [get_all_IR].
    - [Supervisor] is "supervised_scraper.py": the classifier [is_failure],
      one supervised run [run_scraper], the circuit breaker
      [check_failure_threshold] and the restart loop [main].

    Python statements are written in a state-and-exception monad: a
    computation takes the state of the world it acts on and returns either a
    value or a raised exception, together with the state it left behind.
    The state holds what the programs read and change (the clock, the deque
    of timestamps, the files, the log file) and, beside it, a record of what
    was done (the requests sent, the effects in order, what was printed).

    What the programs do not decide enters as a function: the answers of the
    remote endpoint and the time they take, the time a sleep overruns, the
    lines and the exit status of each child process, the helpers that parse
    a result page and format a timestamp.

    Conventions of the model:
    - instants are integers counting microseconds, the resolution of
      [datetime]; durations that Python holds as floating-point seconds are
      exact here, and the clock never goes back;
    - text is [string], one ASCII character per [ascii];
    - [files] holds regular files; directories, permissions and a full disk
      are not modelled, so opening for writing and writing succeed;
    - the progress bar of [tqdm] and whatever goes to the standard error
      stream of the scraper are left out. *)

From Stdlib Require Import ZArith Lia Ascii String List.
From stdpp Require Import base tactics option list gmap strings pretty.

Local Open Scope Z_scope.

(** ** Statements that may raise *)

(** A Python exception: the class name and [str(e)]. Only what the handlers
    of the two programs can catch is modelled ([except Exception] and a bare
    [except] around pure code); [KeyboardInterrupt] and [SystemExit] are not. *)
Inductive exn : Type :=
| Exception (cls : string) (msg : string).

Definition str_of_exn (e : exn) : string :=
  match e with Exception _ msg => msg end.

Inductive result (A : Type) : Type :=
| Ok (a : A)
| Raise (e : exn).
Arguments Ok {A} a.
Arguments Raise {A} e.

Definition is_ok {A : Type} (r : result A) : bool :=
  match r with Ok _ => true | Raise _ => false end.

(** [M S A]: a statement over a world of type [S] that produces an [A]. A
    raised exception keeps the effects performed before it. *)
Definition M (S A : Type) : Type := S -> result A * S.

Definition ret {S A : Type} (a : A) : M S A := fun s => (Ok a, s).

Definition bind {S A B : Type} (m : M S A) (k : A -> M S B) : M S B :=
  fun s =>
    match m s with
    | (Ok a, s') => k a s'
    | (Raise e, s') => (Raise e, s')
    end.

Definition raise {S A : Type} (e : exn) : M S A := fun s => (Raise e, s).

Definition gets {S A : Type} (f : S -> A) : M S A := fun s => (Ok (f s), s).

Definition modify {S : Type} (f : S -> S) : M S unit := fun s => (Ok tt, f s).

(** [try: body except Exception as e: handler e]. *)
Definition try_except {S A : Type} (body : M S A) (handler : exn -> M S A) : M S A :=
  fun s =>
    match body s with
    | (Ok a, s') => (Ok a, s')
    | (Raise e, s') => handler e s'
    end.

Declare Scope py_scope.
Delimit Scope py_scope with py.
Notation "x <- c1 ;; c2" := (bind c1 (fun x => c2))
  (at level 100, c1 at next level, right associativity) : py_scope.
Notation "c1 ;; c2" := (bind c1 (fun _ => c2))
  (at level 100, right associativity) : py_scope.
Local Open Scope py_scope.

(** ** Time *)

Definition seconds (n : Z) : Z := n * 1000000.
Definition minutes (n : Z) : Z := seconds (60 * n).

(** ** [collections.deque(maxlen=n)]

    Oldest element first; [append] on a full deque discards the oldest. *)
Definition deque_append {A : Type} (maxlen : nat) (d : list A) (x : A) : list A :=
  if decide (length d = maxlen) then tail d ++ [x] else d ++ [x].

(** ** Counting instants in a trailing window

    [trailing T t x]: the instant [x] is at most [t] and less than [T] old at
    [t], the test [rate_limited_request] applies to its oldest timestamp. *)
Definition trailing (T t x : Z) : bool :=
  bool_decide (t - T < x) && bool_decide (x <= t).

Definition window_count (T t : Z) (l : list Z) : nat :=
  length (filter (fun x => trailing T t x = true) l).

(** How many instants of [l] come after [b]. *)
Definition above (b : Z) (l : list Z) : nat := length (filter (fun x => b < x) l).

(** [spaced K T l]: [l] lists instants newest first, in order, and any two
    that are [K] places apart are at least [T] apart. *)
Definition spaced (K : nat) (T : Z) (l : list Z) : Prop :=
  (forall i x y, l !! i = Some x -> l !! S i = Some y -> y <= x) /\
  (forall i x y, l !! i = Some x -> l !! (i + K)%nat = Some y -> y + T <= x).


(** ** Python text operations (ASCII) *)

Module Text.

(** [str.isspace] on one ASCII character: tab, line feed, vertical tab, form
    feed, carriage return, the four separators 28 to 31, and space. *)
Definition isspace (c : ascii) : bool :=
  let n := N_of_ascii c in
  ((9 <=? n) && (n <=? 13) || (28 <=? n) && (n <=? 32))%N.

Definition LF : ascii := ascii_of_N 10.
Definition CR : ascii := ascii_of_N 13.
Definition newline : string := String LF "".

Definition is_empty (s : string) : bool :=
  match s with EmptyString => true | String _ _ => false end.

Fixpoint lstrip (s : string) : string :=
  match s with
  | EmptyString => EmptyString
  | String c s' => if isspace c then lstrip s' else s
  end.

Fixpoint rstrip (s : string) : string :=
  match s with
  | EmptyString => EmptyString
  | String c s' =>
      let r := rstrip s' in
      if isspace c && is_empty r then EmptyString else String c r
  end.

(** [s.strip()] *)
Definition strip (s : string) : string := lstrip (rstrip s).

(** [s.split()]: the maximal runs of characters that are not white space. *)
Fixpoint split (s : string) : list string :=
  match s with
  | EmptyString => []
  | String c s' =>
      if isspace c then split s'
      else match s' with
           | EmptyString => [String c ""]
           | String d _ =>
               if isspace d then String c "" :: split s'
               else match split s' with
                    | t :: ts => String c t :: ts
                    | [] => [String c ""]
                    end
           end
  end.

(** [l[-k]] for [k >= 1]: [None] stands for [IndexError]. *)
Definition from_end {A : Type} (l : list A) (k : nat) : option A :=
  if decide (k <= length l)%nat then l !! (length l - k)%nat else None.

(** Reading in text mode with universal newlines: CR LF and a lone CR both
    read as LF. *)
Fixpoint universal_newlines (s : string) : string :=
  match s with
  | EmptyString => EmptyString
  | String c s' =>
      if Ascii.eqb c CR then
        String LF (match s' with
                   | String d s'' =>
                       if Ascii.eqb d LF then universal_newlines s''
                       else universal_newlines s'
                   | EmptyString => EmptyString
                   end)
      else String c (universal_newlines s')
  end.

(** The lines of a text as file iteration and [readlines] give them: each
    line keeps its line feed, the last one may lack it. *)
Fixpoint lines (s : string) : list string :=
  match s with
  | EmptyString => []
  | String c s' =>
      if Ascii.eqb c LF then String c "" :: lines s'
      else match lines s' with
           | l :: ls => String c l :: ls
           | [] => [String c ""]
           end
  end.

(** ASCII lower case, the folding [re.IGNORECASE] applies to ASCII text. *)
Definition lower (c : ascii) : ascii :=
  let n := N_of_ascii c in
  if ((65 <=? n) && (n <=? 90))%N then ascii_of_N (n + 32) else c.

Fixpoint starts_with_ci (p s : string) : bool :=
  match p, s with
  | EmptyString, _ => true
  | String _ _, EmptyString => false
  | String a p', String b s' => Ascii.eqb (lower a) (lower b) && starts_with_ci p' s'
  end.

(** [re.search(p, s, re.IGNORECASE)] for a pattern [p] without regular
    expression operators: [p] occurs in [s], letter case aside. *)
Fixpoint search_ci (p s : string) : bool :=
  starts_with_ci p s ||
  match s with
  | EmptyString => false
  | String _ s' => search_ci p s'
  end.

Definition ends_with_slash (s : string) : bool :=
  match String.rev s with String "/" _ => true | _ => false end.

(** [os.path.join(a, b)] on POSIX. *)
Definition os_path_join (a b : string) : string :=
  match b with
  | String "/" _ => b
  | _ => if is_empty a || ends_with_slash a then a +:+ b else a +:+ "/" +:+ b
  end.

(** A text made of complete lines: empty, or ending in a line feed. *)
Fixpoint complete (s : string) : bool :=
  match s with
  | EmptyString => true
  | String c s' => if is_empty s' then Ascii.eqb c LF else complete s'
  end.

(** The character [c] occurs in [s]. *)
Fixpoint occurs (c : ascii) (s : string) : bool :=
  match s with
  | EmptyString => false
  | String d s' => Ascii.eqb d c || occurs c s'
  end.

(** A key as the work list yields them: no white space around it and no
    line break inside. *)
Definition clean_key (key : string) : bool :=
  String.eqb (strip key) key && negb (occurs LF key) && negb (occurs CR key).

(** Some character of [s] is white space. *)
Fixpoint has_space (s : string) : bool :=
  match s with
  | EmptyString => false
  | String c s' => isspace c || has_space s'
  end.

(** One line of a text: a line feed, if any, is the last character. *)
Fixpoint one_line (s : string) : bool :=
  match s with
  | EmptyString => true
  | String c s' => if Ascii.eqb c LF then is_empty s' else one_line s'
  end.

(** A search pattern in plain words: not empty, and no line break in it. *)
Definition plain (p : string) : bool :=
  negb (is_empty p) && negb (occurs LF p) && negb (occurs CR p).

(** The lines of a transcript, one after the other. *)
Fixpoint joined (lines : list string) : string :=
  match lines with
  | [] => ""
  | line :: rest => line +:+ joined rest
  end.

End Text.
(** * The scraper *)

Module Scraper.

Definition NIST_URL : string := "http://webbook.nist.gov/cgi/cbook.cgi".
Definition JDX_PATH : string := "jdx".
Definition MOL_PATH : string := "mol".

(** What [requests.get] hands back: [response.text] and [response.content]. *)
Record response : Type := { text : string; content : string }.

(** [requests.get(url, params=...)]: the URL and the query dictionary, in
    insertion order. *)
Definition request : Type := string * list (string * string).

(** What the outside world does to one call of [rate_limited_request]: the time
    that went by since the previous statement, by how much a [time.sleep]
    overran, how long the HTTP exchange took, and how it ended. *)
Record reply : Type :=
  { idle : N; overshoot : N; latency : N; outcome : result response }.

(** One issued request, as the model records it: when
    [rate_limited_request] was entered, when [requests.get] was called and
    when it returned or raised. *)
Record call : Type :=
  { req : request; called : Z; issued : Z; finished : Z }.

(** The effects of the program in the order they happen. *)
Inductive event : Type :=
| EvPrint (line : string)
| EvRequest (r : request)
| EvWrite (path data : string)
| EvAppend (path data : string).

(** The world of one scraper process. [request_timestamps] is the module-level
    deque; [files] maps the path of every regular file to its contents;
    [net_log] (newest first) and [trace] (oldest first) record what was done. *)
Record state : Type :=
  { clock : Z;
    request_timestamps : list Z;
    files : gmap string string;
    net_log : list call;
    trace : list event }.

Definition elapse (d : N) : M state unit :=
  modify (fun s =>
    {| clock := clock s + Z.of_N d; request_timestamps := request_timestamps s;
       files := files s; net_log := net_log s; trace := trace s |}).

Definition datetime_now : M state Z := gets clock.

(** [time.sleep(d)]: at least [d], and [over] more. *)
Definition time_sleep (d : Z) (over : N) : M state unit :=
  modify (fun s =>
    {| clock := clock s + d + Z.of_N over; request_timestamps := request_timestamps s;
       files := files s; net_log := net_log s; trace := trace s |}).

Definition emit (e : event) : M state unit :=
  modify (fun s =>
    {| clock := clock s; request_timestamps := request_timestamps s;
       files := files s; net_log := net_log s; trace := trace s ++ [e] |}).

Definition print (line : string) : M state unit := emit (EvPrint line).

(** [requests.get]: the request goes out now, the answer (or the exception)
    arrives [latency] later. *)
Definition requests_get (w : reply) (r : request) (entered : Z) : M state response :=
  modify (fun s =>
    {| clock := clock s + Z.of_N (latency w);
       request_timestamps := request_timestamps s;
       files := files s;
       net_log := {| req := r; called := entered; issued := clock s;
                     finished := clock s + Z.of_N (latency w) |} :: net_log s;
       trace := trace s ++ [EvRequest r] |}) ;;
  match outcome w with
  | Ok resp => ret resp
  | Raise e => raise e
  end.

Definition record_timestamp (now : Z) : M state unit :=
  modify (fun s =>
    {| clock := clock s;
       request_timestamps := deque_append 5 (request_timestamps s) now;
       files := files s; net_log := net_log s; trace := trace s |}).

(** ** Files *)

Definition FileNotFoundError (path : string) : exn :=
  Exception "FileNotFoundError"
    ("[Errno 2] No such file or directory: '" +:+ path +:+ "'").

(** [open(path).read()] in text mode. *)
Definition read_text (path : string) : M state string :=
  fs <- gets files ;;
  match fs !! path with
  | Some data => ret (Text.universal_newlines data)
  | None => raise (FileNotFoundError path)
  end.

Definition os_path_isfile (path : string) : M state bool :=
  gets (fun s => bool_decide (is_Some (files s !! path))).

(** [with open(path, 'wb') as file: file.write(data)] *)
Definition write_bytes (path data : string) : M state unit :=
  modify (fun s =>
    {| clock := clock s; request_timestamps := request_timestamps s;
       files := <[path := data]> (files s);
       net_log := net_log s; trace := trace s ++ [EvWrite path data] |}).

(** [with open(path, "a") as f: f.write(data)] *)
Definition append_text (path data : string) : M state unit :=
  modify (fun s =>
    {| clock := clock s; request_timestamps := request_timestamps s;
       files := <[path := default "" (files s !! path) +:+ data]> (files s);
       net_log := net_log s; trace := trace s ++ [EvAppend path data] |}).

(** [os.makedirs(path, exist_ok=True)]: directories are not part of [files],
    which holds regular files only. *)
Definition os_makedirs (path : string) : M state unit := ret tt.

(** [for x in l: body x] *)
Fixpoint for_each {S A : Type} (l : list A) (body : A -> M S unit) : M S unit :=
  match l with
  | [] => ret tt
  | x :: rest => body x ;; for_each rest body
  end.

(** ** The two sentinel bodies *)

Definition JDX_NOT_FOUND : string :=
  "##TITLE=Spectrum not found." +:+ Text.newline +:+ "##END=" +:+ Text.newline.

Definition MOL_NOT_FOUND : string :=
  "NIST    12121112142D 1   1.00000     0.00000" +:+ Text.newline +:+
  "Copyright by the U.S. Sec. Commerce on behalf of U.S.A. All rights reserved."
    +:+ Text.newline +:+
  "0  0  0     0  0              1 V2000" +:+ Text.newline +:+
  "M  END" +:+ Text.newline.

(** ** The work list *)

(** The loop over [entries] in [get_all_IR]: [entry.split()[-2]] is a formula;
    when it raises, [entry.strip()] is a raw ID. *)
Fixpoint enumerate (entries : list string) : list string * list string :=
  match entries with
  | [] => ([], [])
  | entry :: rest =>
      let '(formulae, IDs) := enumerate rest in
      match Text.from_end (Text.split entry) 2 with
      | Some formula => (formula :: formulae, IDs)
      | None => (formulae, Text.strip entry :: IDs)
      end
  end.

(** [set(line.strip() for line in done_file)] *)
Definition done_set (text : string) : gset string :=
  list_to_set (Text.strip <$> Text.lines text).

Definition search_params (formula : string)
    (allow_other allow_extra match_isotopes exclude_ions has_ir : bool)
    : list (string * string) :=
  [("Formula", formula); ("Units", "SI")]
  ++ (if allow_other then [("AllowOther", "on")] else [])
  ++ (if allow_extra then [("AllowExtra", "on")] else [])
  ++ (if match_isotopes then [("MatchIso", "on")] else [])
  ++ (if exclude_ions then [("NoIon", "on")] else [])
  ++ (if has_ir then [("cIR", "on")] else []).

Section World.

(** The remote endpoint and the scheduler: the reply to the [n]-th request of
    the process. *)
Variable world : nat -> request -> reply.

(** The HTML collaborator: the record IDs of the links of a result page
    ([BeautifulSoup] and [ID_RE]), or the exception it raises. *)
Variable extract_ids : string -> result (list string).

(** ['%s' % ids] for a list of strings. *)
Variable repr_list : list string -> string.

Definition rate_limited_request (r : request) : M state response :=
  n <- gets (fun s => length (net_log s)) ;;
  let w := world n r in
  elapse (idle w) ;;
  current_time <- datetime_now ;;
  timestamps <- gets request_timestamps ;;
  (if decide (length timestamps = 5%nat) then
     let oldest_request := default 0 (head timestamps) in
     let time_since_oldest := current_time - oldest_request in
     if decide (time_since_oldest < seconds 30) then
       let sleep_time := seconds 30 - time_since_oldest in
       time_sleep sleep_time (overshoot w)
     else ret tt
   else ret tt) ;;
  response <- requests_get w r current_time ;;
  now <- datetime_now ;;
  record_timestamp now ;;
  ret response.

(** A sequential client: one call after the other, until one raises. *)
Fixpoint request_sequence (script : list request) : M state unit :=
  match script with
  | [] => ret tt
  | r :: rest => rate_limited_request r ;; request_sequence rest
  end.


Definition search_nist_formula (formula : string)
    (allow_other allow_extra match_isotopes exclude_ions has_ir : bool)
    : M state (list string) :=
  print ("Searching: " +:+ formula) ;;
  let params :=
    search_params formula allow_other allow_extra match_isotopes exclude_ions has_ir in
  response <- rate_limited_request (NIST_URL, params) ;;
  match extract_ids (text response) with
  | Raise e => raise e
  | Ok ids => print ("Result: " +:+ repr_list ids) ;; ret ids
  end.

Definition jdx_filepath (nistid stype : string) : string :=
  Text.os_path_join JDX_PATH (nistid +:+ "-" +:+ stype +:+ ".jdx").

Definition get_jdx (nistid stype : string) : M state unit :=
  let filepath := jdx_filepath nistid stype in
  present <- os_path_isfile filepath ;;
  if present : bool then
    print (nistid +:+ " " +:+ stype +:+ ": Already exists at " +:+ filepath)
  else
    print (nistid +:+ " " +:+ stype +:+ ": Downloading") ;;
    response <- rate_limited_request
      (NIST_URL, [("JCAMP", nistid); ("Type", stype); ("Index", "0")]) ;;
    if decide (text response = JDX_NOT_FOUND) then
      print (nistid +:+ " " +:+ stype +:+ ": Spectrum not found")
    else
      print ("Saving " +:+ filepath) ;;
      write_bytes filepath (content response).

Definition mol_filepath (nistid : string) : string :=
  Text.os_path_join MOL_PATH (nistid +:+ ".mol").

Definition get_mol (nistid : string) : M state unit :=
  let filepath := mol_filepath nistid in
  present <- os_path_isfile filepath ;;
  if present : bool then
    print (nistid +:+ ": Already exists at " +:+ filepath)
  else
    print (nistid +:+ ": Downloading mol") ;;
    response <- rate_limited_request (NIST_URL, [("Str2File", nistid)]) ;;
    if decide (text response = MOL_NOT_FOUND) then
      print (nistid +:+ ": MOL not found")
    else
      print ("Saving " +:+ filepath) ;;
      write_bytes filepath (content response).

Definition retreive_data_from_formula (formula : string) : M state unit :=
  ids <- search_nist_formula formula true false true false true ;;
  for_each ids (fun nistid => get_mol nistid ;; get_jdx nistid "IR").

(** The first loop of [get_all_IR], over the formulas. *)
Definition formula_loop (done_formulae : gset string) (formulae : list string)
    : M state unit :=
  for_each formulae (fun formula =>
    if decide (formula ∈ done_formulae) then ret tt
    else
      retreive_data_from_formula formula ;;
      append_text "done_formulae.txt" (formula +:+ Text.newline)).

(** The second loop of [get_all_IR], over the raw IDs. *)
Definition id_loop (done_IDs : gset string) (IDs : list string) : M state unit :=
  for_each IDs (fun nistid =>
    if decide (nistid ∈ done_IDs) then ret tt
    else
      get_mol nistid ;;
      get_jdx nistid "IR" ;;
      append_text "done_IDs.txt" (nistid +:+ Text.newline)).

Definition get_all_IR : M state unit :=
  os_makedirs JDX_PATH ;;
  os_makedirs MOL_PATH ;;
  data <- read_text "species.txt" ;;
  let '(formulae, IDs) := enumerate (Text.lines data) in
  print ("Processing " +:+ pretty (length formulae) +:+ " formulas...") ;;
  done_text <- read_text "done_formulae.txt" ;;
  let done_formulae := done_set done_text in
  formula_loop done_formulae formulae ;;
  print "Done with formulas!" ;;
  print ("Processing " +:+ pretty (length IDs) +:+ " IDs...") ;;
  done_text <- read_text "done_IDs.txt" ;;
  let done_IDs := done_set done_text in
  id_loop done_IDs IDs ;;
  print "Done Scraping Data!".

End World.

(** A process that has just started: nothing requested yet. *)
Definition fresh (t0 : Z) (fs : gmap string string) : state :=
  {| clock := t0; request_timestamps := []; files := fs; net_log := []; trace := [] |}.

End Scraper.

(** * Vocabulary of the specification *)

Module Outcomes.
Import Scraper.

(** The two artifacts of a record: its spectrum of some type and its
    structure. *)
Inductive artifact : Type :=
| Spectrum (stype : string)
| Structure.

(** The three ways a fetch can end; a saved artifact carries its bytes. *)
Inductive fetch_outcome : Type :=
| Saved (data : string)
| Skipped
| NotFound.

Definition filepath_of (k : artifact) (nistid : string) : string :=
  match k with
  | Spectrum stype => jdx_filepath nistid stype
  | Structure => mol_filepath nistid
  end.

Definition request_of (k : artifact) (nistid : string) : request :=
  match k with
  | Spectrum stype => (NIST_URL, [("JCAMP", nistid); ("Type", stype); ("Index", "0")])
  | Structure => (NIST_URL, [("Str2File", nistid)])
  end.

Definition sentinel_of (k : artifact) : string :=
  match k with
  | Spectrum _ => JDX_NOT_FOUND
  | Structure => MOL_NOT_FOUND
  end.

(** What the program says on its way to each outcome. *)
Definition says_exists (k : artifact) (nistid : string) : string :=
  match k with
  | Spectrum stype =>
      nistid +:+ " " +:+ stype +:+ ": Already exists at " +:+ jdx_filepath nistid stype
  | Structure => nistid +:+ ": Already exists at " +:+ mol_filepath nistid
  end.

Definition says_downloading (k : artifact) (nistid : string) : string :=
  match k with
  | Spectrum stype => nistid +:+ " " +:+ stype +:+ ": Downloading"
  | Structure => nistid +:+ ": Downloading mol"
  end.

Definition says_not_found (k : artifact) (nistid : string) : string :=
  match k with
  | Spectrum stype => nistid +:+ " " +:+ stype +:+ ": Spectrum not found"
  | Structure => nistid +:+ ": MOL not found"
  end.

(** The effects of one completed fetch, by outcome: a skipped fetch only
    reports; a not-found fetch asks and reports; a saved fetch asks and
    writes the file. *)
Definition outcome_events (k : artifact) (nistid : string) (o : fetch_outcome)
    : list event :=
  match o with
  | Skipped => [EvPrint (says_exists k nistid)]
  | NotFound =>
      [EvPrint (says_downloading k nistid); EvRequest (request_of k nistid);
       EvPrint (says_not_found k nistid)]
  | Saved data =>
      [EvPrint (says_downloading k nistid); EvRequest (request_of k nistid);
       EvPrint ("Saving " +:+ filepath_of k nistid);
       EvWrite (filepath_of k nistid) data]
  end.

Definition is_append (e : event) : bool :=
  match e with EvAppend _ _ => true | _ => false end.

Definition is_request (e : event) : bool :=
  match e with EvRequest _ => true | _ => false end.

Definition is_write (e : event) : bool :=
  match e with EvWrite _ _ => true | _ => false end.

(** Effects among which no checkpoint file is appended to. *)
Definition quiet (evs : list event) : Prop :=
  Forall (fun e => is_append e = false) evs.

(** The effects of fetching both artifacts of each record of a list, each
    fetch carried to one of its three outcomes. *)
Inductive records_fetched : list string -> list event -> Prop :=
| fetched_nil : records_fetched [] []
| fetched_cons nistid ids o_mol o_jdx evs :
    records_fetched ids evs ->
    records_fetched (nistid :: ids)
      (outcome_events Structure nistid o_mol
       ++ outcome_events (Spectrum "IR") nistid o_jdx ++ evs).

(** The effects of one run of a checkpointed loop over [items], for a
    checkpoint file [path] read as [done] at startup: an item that is done
    leaves no effect; an item that is not is fetched to completion
    ([item_events]) and only then appended to the checkpoint file; a run
    that does not end normally ([ok = false]) stops inside the fetch of
    some item, with no append since that item began. *)
Inductive checkpointed_run (done : gset string) (path : string)
    (item_events : string -> list event -> Prop)
    : list string -> bool -> list event -> Prop :=
| run_end : checkpointed_run done path item_events [] true []
| run_skip item items ok evs :
    item ∈ done ->
    checkpointed_run done path item_events items ok evs ->
    checkpointed_run done path item_events (item :: items) ok evs
| run_item item items ok fetched evs :
    item ∉ done ->
    item_events item fetched ->
    checkpointed_run done path item_events items ok evs ->
    checkpointed_run done path item_events (item :: items) ok
      (fetched ++ EvAppend path (item +:+ Text.newline) :: evs)
| run_abort item items partial :
    item ∉ done ->
    quiet partial ->
    checkpointed_run done path item_events (item :: items) false partial.

(** A raw ID is complete when both of its artifacts were fetched. *)
Definition id_events (nistid : string) (evs : list event) : Prop :=
  records_fetched [nistid] evs.

(** A formula is complete when it was searched and both artifacts of every
    record found were fetched. *)
Definition formula_events (repr_list : list string -> string)
    (formula : string) (evs : list event) : Prop :=
  exists ids fetched,
    records_fetched ids fetched /\
    evs = EvPrint ("Searching: " +:+ formula)
          :: EvRequest (NIST_URL, search_params formula true false true false true)
          :: EvPrint ("Result: " +:+ repr_list ids) :: fetched.

(** ** The request log *)

(** What the request log of a sequential client looks like (newest first):
    every call is entered, issued and finished in that order, calls do not
    overlap, and a call is issued no sooner than 30 seconds after the call
    five places before it finished. *)
Definition chained (log : list call) : Prop :=
  Forall (fun c => called c <= issued c <= finished c) log /\
  (forall i c o, log !! i = Some c -> log !! S i = Some o -> finished o <= called c) /\
  (forall i c o, log !! i = Some c -> log !! (i + 5)%nat = Some o ->
                 finished o + seconds 30 <= issued c).

(** The deque holds the instants at which the last five requests returned,
    and the clock has not gone back since. *)
Definition consistent (s : state) : Prop :=
  request_timestamps s = reverse (finished <$> take 5 (net_log s)) /\
  (forall c, head (net_log s) = Some c -> finished c <= clock s) /\
  chained (net_log s).

(** The instant at which [rate_limited_request] lets its request out, when it
    is entered in state [s] and the world answers [w]. *)
Definition issue_time (s : state) (w : reply) : Z :=
  let current_time := clock s + Z.of_N (idle w) in
  if decide (length (request_timestamps s) = 5%nat) then
    let time_since_oldest := current_time - default 0 (head (request_timestamps s)) in
    if decide (time_since_oldest < seconds 30) then
      current_time + (seconds 30 - time_since_oldest) + Z.of_N (overshoot w)
    else current_time
  else current_time.

(** The state [rate_limited_request] leaves behind. *)
Definition after_request (s : state) (w : reply) (r : request) : state :=
  let done := issue_time s w + Z.of_N (latency w) in
  {| clock := done;
     request_timestamps :=
       if is_ok (outcome w) then deque_append 5 (request_timestamps s) done
       else request_timestamps s;
     files := files s;
     net_log := {| req := r; called := clock s + Z.of_N (idle w);
                   issued := issue_time s w; finished := done |} :: net_log s;
     trace := trace s ++ [EvRequest r] |}.

(** [keeps m]: the statement [m] keeps the request log chained, and the
    deque in step with it when it returns. *)
Definition keeps {A : Type} (m : M state A) : Prop :=
  forall s, consistent s ->
    chained (net_log (m s).2) /\ (is_ok (m s).1 = true -> consistent (m s).2).

(** ** States along a fetch *)

Section World.
Variable world : nat -> request -> reply.

(** [get_jdx] and [get_mol] under one name. *)
Definition fetch (k : artifact) (nistid : string) : M state unit :=
  match k with
  | Spectrum stype => get_jdx world nistid stype
  | Structure => get_mol world nistid
  end.

(** The state after saying [line]. *)
Definition said (line : string) (s : state) : state :=
  {| clock := clock s; request_timestamps := request_timestamps s;
     files := files s; net_log := net_log s;
     trace := trace s ++ [EvPrint line] |}.

(** The state after writing [data] at [path]. *)
Definition written (path data : string) (s : state) : state :=
  {| clock := clock s; request_timestamps := request_timestamps s;
     files := <[path := data]> (files s); net_log := net_log s;
     trace := trace s ++ [EvWrite path data] |}.

(** The reply the world holds ready for the next request of [s]. *)
Definition next_reply (s : state) (r : request) : reply :=
  world (length (net_log s)) r.

(** The state in which the answer to the request for artifact [k] of
    [nistid] is in hand. *)
Definition asked (k : artifact) (nistid : string) (s : state) : state :=
  after_request (said (says_downloading k nistid) s)
    (next_reply s (request_of k nistid)) (request_of k nistid).

(** Both artifacts of one record. *)
Definition fetch_record (nistid : string) : M state unit :=
  get_mol world nistid ;; get_jdx world nistid "IR".

End World.

(** How one step of a checkpointed loop behaves on one item. *)
Definition checkpointed_step (done : gset string) (path : string)
    (item_events : string -> list event -> Prop)
    (step : string -> M state unit) : Prop :=
  forall item s,
    (item ∈ done -> step item s = (Ok tt, s)) /\
    (item ∉ done ->
     exists evs, trace (step item s).2 = trace s ++ evs /\
       if is_ok (step item s).1 then
         exists fetched, item_events item fetched /\
           evs = fetched ++ [EvAppend path (item +:+ Text.newline)]
       else quiet evs).

(** ** The checkpoint store, as [get_all_IR] spells it out

    The program has no store object: it reads a checkpoint file into a set
    once, tests membership in that set, and appends to the file. *)

(** [with open(path, "r") as done_file: set(line.strip() for line in done_file)] *)
Definition reload (path : string) : M state (gset string) :=
  done_text <- read_text path ;;
  ret (done_set done_text).

(** [key in done] *)
Definition isDone (done : gset string) (key : string) : bool :=
  bool_decide (key ∈ done).

(** [with open(path, "a") as done_file: done_file.write(key + "\n")] *)
Definition markDone (path key : string) : M state unit :=
  append_text path (key +:+ Text.newline).

(** ** Worlds for the examples *)

(** An endpoint that answers at once, with an empty body. *)
Definition instant_world : nat -> request -> reply :=
  fun _ _ => {| idle := 0; overshoot := 0; latency := 0;
                outcome := Ok {| text := ""; content := "" |} |}.

Definition ping : request := (NIST_URL, []).

(** The state after five requests at instant 0. *)
Definition five_done : state :=
  (request_sequence instant_world [ping; ping; ping; ping; ping] (fresh 0 ∅)).2.

(** An endpoint that has nothing: every body is the not-found text of the
    kind asked for. *)
Definition empty_world : nat -> request -> reply :=
  fun _ r =>
    let body :=
      match r.2 with
      | ("JCAMP", _) :: _ => JDX_NOT_FOUND
      | _ => MOL_NOT_FOUND
      end in
    {| idle := 0; overshoot := 0; latency := 0;
       outcome := Ok {| text := body; content := body |} |}.

(** The endpoint of the scenario of the specification: record "1" has a
    structure and a spectrum, any other record has neither. *)
Definition one_record_world : nat -> request -> reply :=
  fun _ r =>
    let body :=
      match r.2 with
      | ("JCAMP", nistid) :: _ =>
          if decide (nistid = "1") then "##TITLE=WATER" else JDX_NOT_FOUND
      | ("Str2File", nistid) :: _ =>
          if decide (nistid = "1") then "water.mol" else MOL_NOT_FOUND
      | _ => "<a href=/cgi/cbook.cgi?ID=1&Units=SI>"
      end in
    {| idle := 0; overshoot := 0; latency := 0;
       outcome := Ok {| text := body; content := body |} |}.

(** Its work list, with nothing done yet. *)
Definition two_items : gmap string string :=
  {[ "species.txt" := "H2O 18.02" +:+ Text.newline +:+ "NOTFOUNDID" +:+ Text.newline;
     "done_formulae.txt" := "";
     "done_IDs.txt" := "" ]}.

End Outcomes.

(** * The supervisor *)

Module Supervisor.

(** The configuration constants at the top of the script: a delay in
    seconds, a number of restarts, and a number of failures with a number
    of minutes. *)
Record config : Type :=
  { SCRAPER_SCRIPT : string;
    LOG_FILE : string;
    RESTART_DELAY : N;
    MAX_RESTARTS : nat;
    FAILURE_THRESHOLD : Z * Z }.

(** The values the script is shipped with. *)
Definition shipped : config :=
  {| SCRAPER_SCRIPT := "1) NIST Spectra Scraper.py";
     LOG_FILE := "scraping_output.log";
     RESTART_DELAY := 60;
     MAX_RESTARTS := Z.to_nat 10000;
     FAILURE_THRESHOLD := (20, 25) |}.

(** What one child process does, as the supervisor sees it: either
    [subprocess.Popen] raises, or the process runs, [readline] hands over
    the lines of [transcript] one by one (each with its line end) and then
    either raises or reports the end of the output, [poll] giving the exit
    status. *)
Inductive child : Type :=
| NotSpawned (e : exn)
| Ran (transcript : list string) (ending : result Z).

(** One attempt as the outside world shapes it: the child, how long it ran
    and by how much the sleep after it overran. *)
Record attempt : Type :=
  { run : child; run_time : N; sleep_over : N }.

(** The world of the supervisor: the clock, the contents of [LOG_FILE] (if
    the file exists), what was printed, and how many children were started. *)
Record state : Type :=
  { clock : Z;
    log_file : option string;
    console : list string;
    runs : nat }.

Definition datetime_now : M state Z := gets clock.

Definition print (line : string) : M state unit :=
  modify (fun s =>
    {| clock := clock s; log_file := log_file s;
       console := console s ++ [line]; runs := runs s |}).

(** [with open(LOG_FILE, "w") as log: log.write(data)] *)
Definition log_truncate (data : string) : M state unit :=
  modify (fun s =>
    {| clock := clock s; log_file := Some data;
       console := console s; runs := runs s |}).

(** [log.write(data)] on [LOG_FILE] opened with ["a"]. *)
Definition log_append (data : string) : M state unit :=
  modify (fun s =>
    {| clock := clock s; log_file := Some (default "" (log_file s) +:+ data);
       console := console s; runs := runs s |}).

(** [open(LOG_FILE, "a")]: the file is created when it is not there. *)
Definition log_open_append : M state unit := log_append "".

(** [with open(LOG_FILE, "r") as log: log.read()] *)
Definition log_read : M state string :=
  content <- gets log_file ;;
  match content with
  | Some data => ret (Text.universal_newlines data)
  | None => raise (Exception "FileNotFoundError" "[Errno 2] No such file or directory")
  end.

(** Time going by: [d] microseconds. *)
Definition elapse (d : Z) : M state unit :=
  modify (fun s =>
    {| clock := clock s + d; log_file := log_file s;
       console := console s; runs := runs s |}).

(** [time.sleep(d)] for [d] seconds: at least that, and [over] more. *)
Definition time_sleep (d : N) (over : N) : M state unit :=
  elapse (seconds (Z.of_N d) + Z.of_N over).

Definition failure_patterns : list string :=
  [ "Connection refused";
    "Connection reset by peer";
    "timeout";
    "Too many requests";
    "rate limit";
    "HTTPError";
    "SSLError";
    "ConnectionError";
    "Max retries exceeded";
    "ChunkedEncodingError";
    "ReadTimeout";
    "ConnectTimeout" ].

(** The loop over [failure_patterns] with [re.search(..., re.IGNORECASE)]. *)
Definition is_failure (log_content : string) : bool :=
  existsb (fun pattern => Text.search_ci pattern log_content) failure_patterns.

Section World.

Variable cfg : config.

(** The [n]-th child the supervisor starts, and the time around it. *)
Variable world : nat -> attempt.

(** [strftime("%Y-%m-%d %H:%M:%S")] of an instant. *)
Variable strftime : Z -> string.

Definition log_message (message : string) : M state unit :=
  now <- datetime_now ;;
  let timestamp := strftime now in
  let formatted_message := "[" +:+ timestamp +:+ "] " +:+ message in
  print formatted_message ;;
  log_append (formatted_message +:+ Text.newline).

(** [subprocess.Popen(...)]: the next child of the world starts, or the call
    raises. What comes back stands for the process object: the lines it will
    print and how it will end. *)
Definition popen : M state (list string * result Z) :=
  n <- gets runs ;;
  modify (fun s =>
    {| clock := clock s; log_file := log_file s;
       console := console s; runs := S (runs s) |}) ;;
  match run (world n) with
  | NotSpawned e => raise e
  | Ran transcript ending => ret (transcript, ending)
  end.

(** The [while True] loop of [run_scraper]: every line read is printed
    stripped and written to the log as it is. *)
Fixpoint stream (lines : list string) : M state unit :=
  match lines with
  | [] => ret tt
  | line :: rest =>
      (if Text.is_empty line then ret tt
       else print (Text.strip line) ;; log_append line) ;;
      stream rest
  end.

Definition run_scraper : M state bool :=
  try_except
    (n <- gets runs ;;
     process <- popen ;;
     let '(transcript, ending) := process in
     log_open_append ;;
     stream transcript ;;
     elapse (Z.of_N (run_time (world n))) ;;
     return_code <-
       (match ending with
        | Raise e => raise e
        | Ok code => ret code
        end) ;;
     log_content <- log_read ;;
     if bool_decide (return_code <> 0) || is_failure log_content then
       log_message ("Scraper failed with return code " +:+ pretty return_code) ;;
       ret false
     else
       log_message "Scraper completed successfully" ;;
       ret true)
    (fun e =>
       log_message ("Error running scraper: " +:+ str_of_exn e) ;;
       ret false).

Definition check_failure_threshold (failure_timestamps : list Z) : M state bool :=
  let '(max_failures, time_window_minutes) := FAILURE_THRESHOLD cfg in
  if decide (Z.of_nat (length failure_timestamps) < max_failures) then ret false
  else
    current_time <- datetime_now ;;
    let time_window := minutes time_window_minutes in
    let recent_failures :=
      Z.of_nat (length (filter (fun timestamp => current_time - timestamp <= time_window)
                          failure_timestamps)) in
    if decide (recent_failures >= max_failures) then
      log_message ("Failure threshold exceeded: " +:+ pretty recent_failures
                   +:+ " failures in the last " +:+ pretty time_window_minutes
                   +:+ " minutes") ;;
      ret true
    else ret false.

(** The [while restart_count < MAX_RESTARTS] loop of [main]. Every turn
    that does not return adds one to [restart_count], so [fuel] turns are
    enough whenever [MAX_RESTARTS - restart_count <= fuel]; [None] is the
    answer of a loop that was given less. *)
Fixpoint restart_loop (fuel : nat) (restart_count : nat) (failure_timestamps : list Z)
    : M state (option Z) :=
  if decide (restart_count < MAX_RESTARTS cfg)%nat then
    match fuel with
    | O => ret None
    | S fuel' =>
        succeeded <- run_scraper ;;
        if succeeded : bool then
          log_message "Scraper completed successfully, exiting" ;;
          ret (Some 0)
        else
          now <- datetime_now ;;
          let failure_timestamps := deque_append 1000 failure_timestamps now in
          tripped <- check_failure_threshold failure_timestamps ;;
          if tripped : bool then
            log_message "Too many failures in a short time period. Stopping script." ;;
            ret (Some 1)
          else
            let overrun := sleep_over (world restart_count) in
            let restart_count := S restart_count in
            log_message ("Scraper failed, restarting in " +:+ pretty (RESTART_DELAY cfg)
                         +:+ " seconds (attempt " +:+ pretty restart_count +:+ "/"
                         +:+ pretty (MAX_RESTARTS cfg) +:+ ")") ;;
            time_sleep (RESTART_DELAY cfg) overrun ;;
            restart_loop fuel' restart_count failure_timestamps
    end
  else
    log_message ("Maximum restart attempts (" +:+ pretty (MAX_RESTARTS cfg)
                 +:+ ") reached, giving up") ;;
    ret (Some 1).

Definition main : M state (option Z) :=
  now <- datetime_now ;;
  log_truncate ("Starting supervised scraper at " +:+ strftime now +:+ Text.newline) ;;
  log_message "Starting supervised scraper" ;;
  restart_loop (MAX_RESTARTS cfg) 0 [].

End World.

(** The supervisor as it starts: nothing printed, no child started yet. *)
Definition boot (t0 : Z) (log : option string) : state :=
  {| clock := t0; log_file := log; console := []; runs := 0 |}.

End Supervisor.

(** * Vocabulary of the specification: the supervisor *)

Module Verdicts.
Import Supervisor.

(** The instant [t] lies in the window of length [window] that ends at
    [now]. *)
Definition in_window (window now t : Z) : bool :=
  bool_decide (now - window <= t <= now).

(** How many of the recorded failures lie in that window. *)
Definition recent (window now : Z) (failure_timestamps : list Z) : Z :=
  Z.of_nat (length (filter (fun t => in_window window now t = true) failure_timestamps)).

(** How the supervisor ends: a run succeeded, the circuit breaker tripped,
    or the restart budget ran out. *)
Inductive ending : Type :=
| Succeeded
| Tripped
| Exhausted.

(** The exit code of the process for each ending. *)
Definition exit_status (e : ending) : Z :=
  match e with
  | Succeeded => 0
  | Tripped => 1
  | Exhausted => 1
  end.

Section World.
Variable cfg : config.
Variable world : nat -> attempt.
Variable strftime : Z -> string.

(** The two components of [FAILURE_THRESHOLD]. *)
Definition max_failures : Z := (FAILURE_THRESHOLD cfg).1.
Definition window : Z := minutes (FAILURE_THRESHOLD cfg).2.

(** The count the code makes: failures not older than the window. *)
Definition counted (now : Z) (failure_timestamps : list Z) : Z :=
  Z.of_nat (length (filter (fun timestamp => now - timestamp <= window)
                      failure_timestamps)).

(** The state after [log_message message]. *)
Definition logged (message : string) (s : state) : state :=
  let formatted_message := "[" +:+ strftime (clock s) +:+ "] " +:+ message in
  {| clock := clock s;
     log_file := Some (default "" (log_file s) +:+ formatted_message +:+ Text.newline);
     console := console s ++ [formatted_message];
     runs := runs s |}.

(** The state after one line of the child was read. *)
Definition shown (line : string) (s : state) : state :=
  if Text.is_empty line then s
  else {| clock := clock s;
          log_file := Some (default "" (log_file s) +:+ line);
          console := console s ++ [Text.strip line];
          runs := runs s |}.

Fixpoint streamed (lines : list string) (s : state) : state :=
  match lines with
  | [] => s
  | line :: rest => streamed rest (shown line s)
  end.

(** The state in which a child was started. *)
Definition spawned (s : state) : state :=
  {| clock := clock s; log_file := log_file s; console := console s; runs := S (runs s) |}.

(** The state in which the child that printed [transcript] is over. *)
Definition ran (transcript : list string) (time : N) (s : state) : state :=
  let s1 := streamed transcript
              {| clock := clock s; log_file := Some (default "" (log_file s) +:+ "");
                 console := console s; runs := S (runs s) |} in
  {| clock := clock s1 + Z.of_N time; log_file := log_file s1;
     console := console s1; runs := runs s1 |}.

(** The state in which [main] enters its loop: the log file begun anew. *)
Definition started (s : state) : state :=
  logged "Starting supervised scraper"
    {| clock := clock s;
       log_file := Some ("Starting supervised scraper at " +:+ strftime (clock s)
                         +:+ Text.newline);
       console := console s; runs := runs s |}.

(** What a turn of the loop does once the run was judged failed: record the
    failure, ask the circuit breaker, and either stop or count the restart,
    wait and go round again with [fuel] turns left. *)
Definition after_failed_run (fuel : nat) (restart_count : nat)
    (failure_timestamps : list Z) : M state (option Z) :=
  now <- datetime_now ;;
  let failure_timestamps := deque_append 1000 failure_timestamps now in
  tripped <- check_failure_threshold cfg strftime failure_timestamps ;;
  if tripped : bool then
    log_message strftime "Too many failures in a short time period. Stopping script." ;;
    ret (Some 1)
  else
    let overrun := sleep_over (world restart_count) in
    let restart_count := S restart_count in
    log_message strftime
      ("Scraper failed, restarting in " +:+ pretty (RESTART_DELAY cfg)
       +:+ " seconds (attempt " +:+ pretty restart_count +:+ "/"
       +:+ pretty (MAX_RESTARTS cfg) +:+ ")") ;;
    time_sleep (RESTART_DELAY cfg) overrun ;;
    restart_loop cfg world strftime fuel restart_count failure_timestamps.

(** The state in which the next attempt starts after a failed one that did
    not trip the breaker. *)
Definition restarting (restart_count : nat) (s : state) : state :=
  (bind (log_message strftime
           ("Scraper failed, restarting in " +:+ pretty (RESTART_DELAY cfg)
            +:+ " seconds (attempt " +:+ pretty (S restart_count) +:+ "/"
            +:+ pretty (MAX_RESTARTS cfg) +:+ ")"))
     (fun _ => time_sleep (RESTART_DELAY cfg) (sleep_over (world restart_count))) s).2.

(** The course of the supervisor from the [restart_count]-th turn on, as the
    specification tells it: the list holds the verdict of every run attempt
    made, in order.
    - A run judged successful ends the supervisor ([Succeeded]).
    - A run judged failed is recorded; if the breaker trips on the recorded
      failures the supervisor ends ([Tripped]); otherwise the restart is
      counted and the next attempt follows.
    - With [MAX_RESTARTS] restarts counted no attempt is made
      ([Exhausted]). *)
Inductive supervised
    : nat -> list Z -> state -> ending -> list bool -> state -> Prop :=
| sup_succeeded restart_count ts s s1 :
    (restart_count < MAX_RESTARTS cfg)%nat ->
    run_scraper world strftime s = (Ok true, s1) ->
    supervised restart_count ts s Succeeded [true]
      (logged "Scraper completed successfully, exiting" s1)
| sup_tripped restart_count ts s s1 s2 :
    (restart_count < MAX_RESTARTS cfg)%nat ->
    run_scraper world strftime s = (Ok false, s1) ->
    check_failure_threshold cfg strftime (deque_append 1000 ts (clock s1)) s1
      = (Ok true, s2) ->
    supervised restart_count ts s Tripped [false]
      (logged "Too many failures in a short time period. Stopping script." s2)
| sup_restart restart_count ts s s1 s2 e verdicts s' :
    (restart_count < MAX_RESTARTS cfg)%nat ->
    run_scraper world strftime s = (Ok false, s1) ->
    check_failure_threshold cfg strftime (deque_append 1000 ts (clock s1)) s1
      = (Ok false, s2) ->
    supervised (S restart_count) (deque_append 1000 ts (clock s1))
      (restarting restart_count s2) e verdicts s' ->
    supervised restart_count ts s e (false :: verdicts) s'
| sup_exhausted restart_count ts s :
    ~ (restart_count < MAX_RESTARTS cfg)%nat ->
    supervised restart_count ts s Exhausted []
      (logged
         ("Maximum restart attempts (" +:+ pretty (MAX_RESTARTS cfg)
          +:+ ") reached, giving up") s).

End World.

(** ** Configurations and worlds for the examples *)

(** The example of the specification: two failures allowed in ten minutes. *)
Definition two_in_ten : config :=
  {| SCRAPER_SCRIPT := SCRAPER_SCRIPT shipped; LOG_FILE := LOG_FILE shipped;
     RESTART_DELAY := 60%N; MAX_RESTARTS := 3; FAILURE_THRESHOLD := (2, 10) |}.

Definition at_instant (now : Z) : state :=
  {| clock := now; log_file := Some ""; console := []; runs := 0 |}.

(** A child that cannot be started. *)
Definition no_child : nat -> attempt :=
  fun _ => {| run := NotSpawned (Exception "OSError" "[Errno 12] Cannot allocate memory");
              run_time := 0; sleep_over := 0 |}.

(** The scenario of the specification: every run fails, the breaker never
    trips (five failures are needed, three restarts allowed) and the
    supervisor gives up with status 1 after three attempts. *)
Definition patient : config :=
  {| SCRAPER_SCRIPT := SCRAPER_SCRIPT shipped; LOG_FILE := LOG_FILE shipped;
     RESTART_DELAY := 60%N; MAX_RESTARTS := 3; FAILURE_THRESHOLD := (5, 10) |}.

Definition failing_child : nat -> attempt :=
  fun _ => {| run := Ran ["Traceback" +:+ Text.newline] (Ok 1);
              run_time := 0; sleep_over := 0 |}.

End Verdicts.

(** * Further notions *)

Module Notions.
Import Scraper Outcomes.

(** The last character of a text, if it has one. *)
Fixpoint last_char (s : string) : option ascii :=
  match s with
  | EmptyString => None
  | String c s' => if Text.is_empty s' then Some c else last_char s'
  end.

(** A path that cannot be the path of an artifact: it ends neither like
    ".mol" nor like ".jdx". *)
Definition control_path (path : string) : Prop :=
  last_char path <> Some "l"%char /\ last_char path <> Some "x"%char.

(** The lines a loop appends to its checkpoint file for [items]. *)
Fixpoint marks (items : list string) : string :=
  match items with
  | [] => ""
  | item :: rest => (item +:+ Text.newline) +:+ marks rest
  end.

(** The items of a work list a loop has to work on. *)
Definition to_do (done : gset string) (items : list string) : list string :=
  filter (fun item => item ∉ done) items.

(** The words of a line: at least two of them make it a formula line. *)
Definition formula_of (entry : string) : option string :=
  Text.from_end (Text.split entry) 2.

(** ASCII upper case. *)
Definition upper (c : ascii) : ascii :=
  let n := N_of_ascii c in
  if ((97 <=? n) && (n <=? 122))%N then ascii_of_N (n - 32) else c.

Fixpoint map_text (f : ascii -> ascii) (s : string) : string :=
  match s with
  | EmptyString => EmptyString
  | String c s' => String (f c) (map_text f s')
  end.

(** A file the scraper has no reason to write: its path cannot be the path
    of an artifact, or it is there already. *)
Definition settled (path : string) (v : option string) : Prop :=
  control_path path \/ is_Some v.

(** The statement [m] leaves the file at [path] as it is when its contents
    are [v] ([None]: there is no such file). *)
Definition leaves {A : Type} (path : string) (v : option string) (m : M state A) : Prop :=
  forall s, files s !! path = v -> files (m s).2 !! path = v.

(** The number of requests sent so far. *)
Definition requests_sent (s : state) : nat := length (net_log s).

End Notions.

(** * Further notions: the supervisor *)

Module Course.
Import Supervisor Verdicts.

(** How many times the supervisor waited for a restart: once after every
    failed attempt that another turn of the loop followed. *)
Definition restarts (e : ending) (verdicts : list bool) : nat :=
  match e with
  | Exhausted => length verdicts
  | _ => pred (length verdicts)
  end.

(** The log file of [s'] continues the one of [s]: nothing was taken
    away. *)
Definition grows (s s' : state) : Prop :=
  exists more, default "" (log_file s') = default "" (log_file s) +:+ more.

(** The two lines with which [main] begins the log file anew. *)
Definition header (strftime : Z -> string) (now : Z) : string :=
  ("Starting supervised scraper at " +:+ strftime now +:+ Text.newline)
  +:+ ("[" +:+ strftime now +:+ "] " +:+ "Starting supervised scraper") +:+ Text.newline.

(** A child that prints a failure signature and exits with status 0. *)
Definition reset_child : nat -> attempt :=
  fun _ => {| run := Ran ["OSError: Connection reset by peer" +:+ Text.newline] (Ok 0);
              run_time := 0; sleep_over := 0 |}.

(** A child that does its work. *)
Definition good_child : nat -> attempt :=
  fun _ => {| run := Ran ["Done Scraping Data!" +:+ Text.newline] (Ok 0);
              run_time := 0; sleep_over := 0 |}.

End Course.
Section Windows.
Implicit Types (l : list Z) (K : nat) (T t b : Z).

Lemma spaced_nil K T : spaced K T [].
Proof. split; intros i x y H; by rewrite lookup_nil in H. Qed.

Lemma spaced_tail K T a l : spaced K T (a :: l) -> spaced K T l.
Proof.
  intros [Hs Hk]. split; intros i x y Hx Hy.
  - exact (Hs (S i) x y Hx Hy).
  - exact (Hk (S i) x y Hx Hy).
Qed.

(** In a list that descends, nothing after the head exceeds the head. *)
Lemma descending_head K T a l x : spaced K T (a :: l) -> x ∈ l -> x <= a.
Proof.
  revert a. induction l as [|c l IH]; intros a Hsp Hin.
  - by apply elem_of_nil in Hin.
  - assert (c <= a) as Hca by (apply (proj1 Hsp 0%nat a c); reflexivity).
    apply elem_of_cons in Hin as [->|Hin]; [done|].
    specialize (IH c (spaced_tail _ _ _ _ Hsp) Hin). lia.
Qed.

Lemma above_none K T b a l :
  spaced K T (a :: l) -> a <= b -> above b (a :: l) = 0%nat.
Proof.
  intros Hsp Hab. unfold above.
  assert (Forall (fun x => x <= b) (a :: l)) as Hall.
  { apply Forall_forall. intros x Hx.
    apply elem_of_cons in Hx as [->|Hx]; [lia|].
    pose proof (descending_head _ _ _ _ _ Hsp Hx). lia. }
  clear Hsp Hab. induction Hall as [|x l' Hx _ IH]; [done|].
  rewrite filter_cons. destruct (decide (b < x)); [lia|exact IH].
Qed.

(** If the element at place [k] is at most [b], at most [k] elements of a
    descending list exceed [b]. *)
Lemma above_le_index K T b l k :
  spaced K T l -> (forall y, l !! k = Some y -> y <= b) -> (above b l <= k)%nat.
Proof.
  revert k. induction l as [|a l IH]; intros k Hsp Hk.
  - unfold above. rewrite filter_nil. simpl. lia.
  - destruct k as [|k].
    + rewrite (above_none K T); [lia|done|]. by apply Hk.
    + specialize (IH k (spaced_tail _ _ _ _ Hsp) (fun y Hy => Hk y Hy)).
      unfold above in *. rewrite filter_cons.
      destruct (decide (b < a)); simpl; lia.
Qed.

Lemma window_count_above T t l : (window_count T t l <= above (t - T) l)%nat.
Proof.
  unfold window_count, above. induction l as [|a l IH].
  - by rewrite !filter_nil.
  - rewrite !filter_cons.
    destruct (decide (trailing T t a = true)) as [Htr|Htr];
      destruct (decide (t - T < a)) as [Hlt|Hge]; simpl; try lia.
    apply andb_true_iff in Htr as [Htr _].
    apply bool_decide_eq_true_1 in Htr. lia.
Qed.

(** The counting lemma behind the rate limit: in a list of instants spaced
    [T] apart every [K] places, no trailing window of length [T] holds more
    than [K] of them. *)
Lemma spaced_window_count K T t l :
  (0 < K)%nat -> spaced K T l -> (window_count T t l <= K)%nat.
Proof.
  intros HK. induction l as [|a l IH]; intros Hsp.
  - unfold window_count. rewrite filter_nil. simpl. lia.
  - specialize (IH (spaced_tail _ _ _ _ Hsp)).
    destruct (decide (a <= t)) as [Hat|Hat].
    + etrans; [apply window_count_above|].
      unfold above. rewrite filter_cons.
      assert (above (t - T) l <= K - 1)%nat as Hrest.
      { apply (above_le_index K T); [by eapply spaced_tail|].
        intros y Hy.
        assert (y + T <= a); [|lia].
        apply (proj2 Hsp 0%nat a y); [done|].
        replace (0 + K)%nat with (S (K - 1)) by lia. exact Hy. }
      unfold above in Hrest.
      destruct (decide (t - T < a)); simpl; lia.
    + unfold window_count in *. rewrite filter_cons.
      destruct (decide (trailing T t a = true)) as [Htr|Htr]; [|lia].
      apply andb_true_iff in Htr as [_ Htr].
      apply bool_decide_eq_true_1 in Htr. lia.
Qed.
End Windows.


(** * Facts about text *)

Module TextFacts.
Import Text.

Lemma append_cons c a b : String c a +:+ b = String c (a +:+ b).
Proof. reflexivity. Qed.

Lemma append_nil_l b : "" +:+ b = b.
Proof. reflexivity. Qed.

Lemma append_nil_r a : a +:+ "" = a.
Proof. induction a as [|c a IH]; [done|]. by rewrite append_cons, IH. Qed.

Lemma append_assoc a b c : (a +:+ b) +:+ c = a +:+ (b +:+ c).
Proof. induction a as [|x a IH]; [done|]. by rewrite !append_cons, IH. Qed.

Lemma is_empty_true s : is_empty s = true -> s = "".
Proof. by destruct s. Qed.

Lemma complete_snoc a k : complete (a +:+ k +:+ newline) = true.
Proof.
  induction a as [|c a IH].
  - rewrite append_nil_l. induction k as [|d k IHk]; [done|].
    rewrite append_cons. simpl. destruct k; [done|]. exact IHk.
  - rewrite append_cons. simpl.
    destruct (a +:+ k +:+ newline) eqn:E; [|exact IH].
    destruct a; [destruct k|]; discriminate.
Qed.

Lemma rstrip_newline k : rstrip (k +:+ newline) = rstrip k.
Proof.
  induction k as [|c k IH]; [done|].
  rewrite append_cons. simpl. by rewrite IH.
Qed.

Lemma strip_newline k : strip (k +:+ newline) = strip k.
Proof. unfold strip. by rewrite rstrip_newline. Qed.

Lemma lines_nonempty s : s <> "" -> lines s <> [].
Proof.
  destruct s as [|c s]; [done|]. intros _. simpl.
  destruct (Ascii.eqb c LF); [done|]. by destruct (lines s).
Qed.

Lemma lines_append a b :
  complete a = true -> lines (a +:+ b) = lines a ++ lines b.
Proof.
  induction a as [|c a IH]; intros Ha; [done|].
  rewrite append_cons. simpl in *.
  destruct a as [|d a].
  - rewrite append_nil_l. simpl in *. by rewrite Ha.
  - specialize (IH Ha). destruct (Ascii.eqb c LF); [by rewrite IH|].
    rewrite IH.
    pose proof (lines_nonempty (String d a) ltac:(done)) as Hne.
    by destruct (lines (String d a)).
Qed.

Lemma lines_single k :
  occurs LF k = false -> lines (k +:+ newline) = [k +:+ newline].
Proof.
  induction k as [|c k IH]; intros Hk; [done|].
  rewrite append_cons. simpl in *.
  apply orb_false_iff in Hk as [Hc Hk].
  rewrite Hc, (IH Hk). done.
Qed.

Lemma universal_newlines_id k :
  occurs CR k = false -> universal_newlines k = k.
Proof.
  induction k as [|c k IH]; intros Hk; [done|].
  simpl in *. apply orb_false_iff in Hk as [Hc Hk].
  by rewrite Hc, (IH Hk).
Qed.

Lemma universal_newlines_cons c s :
  universal_newlines (String c s) =
  if Ascii.eqb c CR then
    String LF (match s with
               | String d s'' =>
                   if Ascii.eqb d LF then universal_newlines s''
                   else universal_newlines s
               | EmptyString => EmptyString
               end)
  else String c (universal_newlines s).
Proof. reflexivity. Qed.

Lemma complete_cons c d a : complete (String c (String d a)) = complete (String d a).
Proof. reflexivity. Qed.

Lemma complete_after_newline d a :
  Ascii.eqb d LF = true -> complete (String d a) = true -> complete a = true.
Proof. intros _. simpl. by destruct a. Qed.

(** Translation of line ends goes through a boundary that follows a
    complete line. *)
Lemma universal_newlines_append_aux n a b :
  (String.length a <= n)%nat -> complete a = true ->
  universal_newlines (a +:+ b) = universal_newlines a +:+ universal_newlines b.
Proof.
  revert a. induction n as [|n IH]; intros a Hn Ha.
  - destruct a; [done|simpl in Hn; lia].
  - destruct a as [|c a]; [done|].
    destruct a as [|d a].
    + simpl in Ha. apply Ascii.eqb_eq in Ha as ->. done.
    + rewrite complete_cons in Ha.
      assert (String.length (String d a) <= n)%nat as Hlen by (simpl in *; lia).
      rewrite !append_cons.
      rewrite (universal_newlines_cons c (String d (a +:+ b))),
        (universal_newlines_cons c (String d a)).
      rewrite <- (append_cons d a b).
      destruct (Ascii.eqb c CR);
        [rewrite (append_cons LF)|rewrite (append_cons c)]; f_equal.
      * destruct (Ascii.eqb d LF) eqn:Hd.
        -- apply IH; [simpl in *; lia|by eapply complete_after_newline].
        -- by apply IH.
      * by apply IH.
Qed.

Lemma universal_newlines_append a b :
  complete a = true ->
  universal_newlines (a +:+ b) = universal_newlines a +:+ universal_newlines b.
Proof. by apply (universal_newlines_append_aux (String.length a)). Qed.

Lemma universal_newlines_nonempty s : s <> "" -> universal_newlines s <> "".
Proof.
  destruct s as [|c s]; [done|]. intros _. rewrite universal_newlines_cons.
  by destruct (Ascii.eqb c CR).
Qed.

Lemma complete_cons_nonempty c s : s <> "" -> complete (String c s) = complete s.
Proof. by destruct s. Qed.

Lemma universal_newlines_complete_aux n a :
  (String.length a <= n)%nat -> complete a = true ->
  complete (universal_newlines a) = true.
Proof.
  revert a. induction n as [|n IH]; intros a Hn Ha.
  - destruct a; [done|simpl in Hn; lia].
  - destruct a as [|c a]; [done|].
    destruct a as [|d a].
    + simpl in Ha. apply Ascii.eqb_eq in Ha as ->. done.
    + rewrite complete_cons in Ha.
      assert (String.length (String d a) <= n)%nat as Hlen by (simpl in *; lia).
      rewrite universal_newlines_cons.
      destruct (Ascii.eqb c CR).
      * destruct (Ascii.eqb d LF) eqn:Hd.
        -- assert (complete (universal_newlines a) = true) as Ha'
             by (apply IH; [simpl in *; lia|by eapply complete_after_newline]).
           simpl. by destruct (universal_newlines a).
        -- rewrite complete_cons_nonempty by by apply universal_newlines_nonempty.
           by apply IH.
      * rewrite complete_cons_nonempty by by apply universal_newlines_nonempty.
        by apply IH.
Qed.

Lemma universal_newlines_complete a :
  complete a = true -> complete (universal_newlines a) = true.
Proof. by apply (universal_newlines_complete_aux (String.length a)). Qed.

Lemma occurs_append c a b : occurs c (a +:+ b) = occurs c a || occurs c b.
Proof.
  induction a as [|d a IH]; [done|].
  rewrite append_cons. simpl. by rewrite IH, orb_assoc.
Qed.

Lemma universal_newlines_append_key k :
  occurs CR k = false ->
  universal_newlines (k +:+ newline) = k +:+ newline.
Proof.
  intros Hk. apply universal_newlines_id.
  rewrite occurs_append, Hk. reflexivity.
Qed.

(** ** Keys of the work list *)

Lemma lstrip_occurs c s : occurs c (lstrip s) = true -> occurs c s = true.
Proof.
  induction s as [|d s IH]; [done|]. simpl.
  destruct (isspace d); [|done]. intros H. rewrite (IH H). apply orb_true_r.
Qed.

Lemma rstrip_occurs c s : occurs c (rstrip s) = true -> occurs c s = true.
Proof.
  induction s as [|d s IH]; [done|]. simpl.
  destruct (isspace d && is_empty (rstrip s)); [done|]. simpl.
  intros H. apply orb_true_iff in H as [H|H]; [by rewrite H|].
  rewrite (IH H). apply orb_true_r.
Qed.

Lemma strip_occurs c s : occurs c (strip s) = false \/ occurs c s = true.
Proof.
  unfold strip. destruct (occurs c (lstrip (rstrip s))) eqn:E; [right|by left].
  by apply rstrip_occurs, lstrip_occurs.
Qed.

Lemma lstrip_idemp s : lstrip (lstrip s) = lstrip s.
Proof.
  induction s as [|c s IH]; [done|]. simpl.
  destruct (isspace c) eqn:E; [done|]. simpl. by rewrite E.
Qed.

Lemma rstrip_idemp s : rstrip (rstrip s) = rstrip s.
Proof.
  induction s as [|c s IH]; [done|]. simpl.
  destruct (isspace c && is_empty (rstrip s)) eqn:E; [done|].
  simpl. by rewrite IH, E.
Qed.

Lemma rstrip_lstrip y : rstrip y = y -> rstrip (lstrip y) = lstrip y.
Proof.
  induction y as [|c y IH]; [done|]. intros Hy. simpl in Hy.
  destruct (isspace c && is_empty (rstrip y)) eqn:E; [done|].
  injection Hy as Hy. simpl.
  destruct (isspace c) eqn:Hc; [by apply IH|]. simpl. by rewrite Hc, Hy.
Qed.

Lemma strip_idemp s : strip (strip s) = strip s.
Proof.
  unfold strip.
  by rewrite (rstrip_lstrip (rstrip s) (rstrip_idemp s)), lstrip_idemp.
Qed.

Lemma isspace_LF : isspace LF = true.
Proof. reflexivity. Qed.

Lemma isspace_CR : isspace CR = true.
Proof. reflexivity. Qed.

Lemma spaceless_occurs c s :
  isspace c = true -> has_space s = false -> occurs c s = false.
Proof.
  intros Hc. induction s as [|d s IH]; [done|]. simpl.
  intros H. apply orb_false_iff in H as [Hd Hs]. rewrite (IH Hs), orb_false_r.
  destruct (Ascii.eqb_spec d c) as [->|]; [congruence|done].
Qed.

Lemma spaceless_lstrip s : has_space s = false -> lstrip s = s.
Proof.
  destruct s as [|c s]; [done|]. simpl. intros H.
  apply orb_false_iff in H as [-> _]. done.
Qed.

Lemma spaceless_rstrip s : has_space s = false -> rstrip s = s.
Proof.
  induction s as [|c s IH]; [done|]. simpl. intros H.
  apply orb_false_iff in H as [-> Hs]. simpl. by rewrite IH.
Qed.

Lemma spaceless_clean s : has_space s = false -> clean_key s = true.
Proof.
  intros H. unfold clean_key, strip.
  rewrite (spaceless_rstrip s H), (spaceless_lstrip s H), String.eqb_refl.
  by rewrite (spaceless_occurs LF), (spaceless_occurs CR).
Qed.

(** The pieces [split] hands out hold no white space. *)
Lemma split_spaceless s : Forall (fun t => has_space t = false) (split s).
Proof.
  induction s as [|c s IH]; [constructor|]. simpl.
  destruct (isspace c) eqn:Hc; [exact IH|].
  destruct s as [|d s].
  - constructor; [simpl; by rewrite Hc|constructor].
  - destruct (isspace d) eqn:Hd.
    + constructor; [simpl; by rewrite Hc|exact IH].
    + destruct (split (String d s)) as [|t ts].
      * constructor; [simpl; by rewrite Hc|constructor].
      * inversion IH as [|? ? Ht Hts]; subst.
        constructor; [simpl; by rewrite Hc, Ht|exact Hts].
Qed.

Lemma from_end_elem {A : Type} (l : list A) (k : nat) (x : A) :
  from_end l k = Some x -> x ∈ l.
Proof.
  unfold from_end. case_decide; [|done]. apply list_elem_of_lookup_2.
Qed.

(** No carriage return is left after the translation of line ends. *)
Lemma universal_newlines_no_CR_aux n s :
  (String.length s <= n)%nat -> occurs CR (universal_newlines s) = false.
Proof.
  revert s. induction n as [|n IH]; intros s Hn.
  - destruct s; [done|simpl in Hn; lia].
  - destruct s as [|c s]; [done|]. rewrite universal_newlines_cons.
    destruct (Ascii.eqb c CR) eqn:Hc.
    + cbn [occurs]. change (Ascii.eqb LF CR) with false. cbn [orb].
      destruct s as [|d s]; [done|].
      destruct (Ascii.eqb d LF); apply IH; simpl in *; lia.
    + cbn [occurs]. rewrite Hc. apply IH. simpl in *. lia.
Qed.

Lemma universal_newlines_no_CR s : occurs CR (universal_newlines s) = false.
Proof. by apply (universal_newlines_no_CR_aux (String.length s)). Qed.

Lemma lines_occurs c s l : l ∈ lines s -> occurs c l = true -> occurs c s = true.
Proof.
  revert l. induction s as [|d s IH]; intros l Hl Hc.
  - by apply elem_of_nil in Hl.
  - simpl in Hl. simpl. destruct (Ascii.eqb d LF).
    + apply elem_of_cons in Hl as [->|Hl].
      * simpl in Hc. by rewrite orb_false_r in Hc; rewrite Hc.
      * rewrite (IH l Hl Hc). apply orb_true_r.
    + destruct (lines s) as [|l0 ls].
      * apply list_elem_of_singleton in Hl as ->. simpl in Hc.
        by rewrite orb_false_r in Hc; rewrite Hc.
      * apply elem_of_cons in Hl as [->|Hl].
        -- simpl in Hc. apply orb_true_iff in Hc as [Hc|Hc]; [by rewrite Hc|].
           rewrite (IH l0); [apply orb_true_r|by left|done].
        -- rewrite (IH l); [apply orb_true_r|by right|done].
Qed.

Lemma lines_one_line s : Forall (fun l => one_line l = true) (lines s).
Proof.
  induction s as [|c s IH]; [constructor|]. simpl.
  destruct (Ascii.eqb c LF) eqn:Hc.
  - constructor; [simpl; by rewrite Hc|exact IH].
  - destruct (lines s) as [|l ls].
    + constructor; [simpl; by rewrite Hc|constructor].
    + inversion IH as [|? ? Hl Hls]; subst.
      constructor; [simpl; by rewrite Hc|exact Hls].
Qed.

Lemma one_line_rstrip l : one_line l = true -> occurs LF (rstrip l) = false.
Proof.
  induction l as [|c l IH]; [done|]. simpl.
  destruct (Ascii.eqb c LF) eqn:Hc.
  - intros Hl. apply is_empty_true in Hl as ->. simpl.
    apply Ascii.eqb_eq in Hc as ->. done.
  - intros Hl. destruct (isspace c && is_empty (rstrip l)); [done|].
    simpl. by rewrite Hc, IH.
Qed.

(** A stripped line of a text read in text mode is a clean key. *)
Lemma stripped_line_clean text entry :
  entry ∈ lines (universal_newlines text) -> clean_key (strip entry) = true.
Proof.
  intros Hentry. unfold clean_key.
  rewrite strip_idemp, String.eqb_refl. simpl.
  assert (occurs LF (strip entry) = false) as ->.
  { pose proof (lines_one_line (universal_newlines text)) as Hall.
    rewrite Forall_forall in Hall. specialize (Hall entry Hentry).
    unfold strip. destruct (occurs LF (lstrip (rstrip entry))) eqn:E; [|done].
    apply lstrip_occurs in E. by rewrite one_line_rstrip in E. }
  destruct (strip_occurs CR entry) as [->|Hcr]; [done|].
  pose proof (lines_occurs CR _ _ Hentry Hcr) as H.
  by rewrite universal_newlines_no_CR in H.
Qed.

(** ** Searching *)

Lemma starts_with_ci_append p a b :
  starts_with_ci p a = true -> starts_with_ci p (a +:+ b) = true.
Proof.
  revert a. induction p as [|x p IH]; intros a Ha; [done|].
  destruct a as [|c a]; [done|]. rewrite append_cons. simpl in *.
  apply andb_true_iff in Ha as [Hc Ha]. by rewrite Hc, (IH a Ha).
Qed.

(** A pattern found in a text is found in any text that continues it ... *)
Lemma search_ci_append_l p a b :
  search_ci p a = true -> search_ci p (a +:+ b) = true.
Proof.
  induction a as [|c a IH]; intros Ha.
  - simpl in Ha. rewrite orb_false_r in Ha.
    destruct p; [|done]. by destruct b.
  - rewrite append_cons. simpl in Ha.
    apply orb_true_iff in Ha as [Ha|Ha].
    + pose proof (starts_with_ci_append p (String c a) b Ha) as H.
      rewrite append_cons in H. simpl. by rewrite H.
    + simpl. rewrite (IH Ha). apply orb_true_r.
Qed.

(** ... and in any text that ends with it. *)
Lemma search_ci_append_r p a b :
  search_ci p b = true -> search_ci p (a +:+ b) = true.
Proof.
  intros Hb. induction a as [|c a IH]; [done|].
  rewrite append_cons. simpl. rewrite IH. apply orb_true_r.
Qed.

Lemma lower_not_LF a : Ascii.eqb (lower a) LF = Ascii.eqb a LF.
Proof. destruct a as [[] [] [] [] [] [] [] []]; reflexivity. Qed.

Lemma lower_not_CR a : Ascii.eqb (lower a) CR = Ascii.eqb a CR.
Proof. destruct a as [[] [] [] [] [] [] [] []]; reflexivity. Qed.

Lemma starts_with_ci_universal p s :
  occurs LF p = false -> occurs CR p = false ->
  starts_with_ci p (universal_newlines s) = starts_with_ci p s.
Proof.
  revert s. induction p as [|a p IH]; intros s Hlf Hcr; [done|].
  simpl in Hlf, Hcr.
  apply orb_false_iff in Hlf as [Ha_lf Hlf].
  apply orb_false_iff in Hcr as [Ha_cr Hcr].
  destruct s as [|c s]; [done|].
  rewrite universal_newlines_cons.
  destruct (Ascii.eqb c CR) eqn:Hc.
  - apply Ascii.eqb_eq in Hc as ->. simpl.
    change (lower LF) with LF. change (lower CR) with CR.
    by rewrite lower_not_LF, lower_not_CR, Ha_lf, Ha_cr.
  - simpl. by rewrite IH.
Qed.

Lemma plain_no_break p : plain p = true -> occurs LF p = false /\ occurs CR p = false.
Proof.
  unfold plain. rewrite !andb_true_iff, !negb_true_iff. tauto.
Qed.

Lemma starts_with_ci_line_break p c s :
  plain p = true -> (c = LF \/ c = CR) -> starts_with_ci p (String c s) = false.
Proof.
  intros Hp Hc. destruct (plain_no_break p Hp) as [Hlf Hcr].
  destruct p as [|a p]; [done|]. simpl in *.
  apply orb_false_iff in Hlf as [Hlf _]. apply orb_false_iff in Hcr as [Hcr _].
  destruct Hc as [-> | ->].
  - change (lower LF) with LF. by rewrite lower_not_LF, Hlf.
  - change (lower CR) with CR. by rewrite lower_not_CR, Hcr.
Qed.

Lemma search_ci_cons p c s :
  search_ci p (String c s) = starts_with_ci p (String c s) || search_ci p s.
Proof. reflexivity. Qed.

Lemma search_ci_universal_aux n p s :
  (String.length s <= n)%nat -> plain p = true ->
  search_ci p (universal_newlines s) = search_ci p s.
Proof.
  intros Hn Hp. destruct (plain_no_break p Hp) as [Hlf Hcr].
  revert s Hn. induction n as [|n IH]; intros s Hn.
  - destruct s; [done|simpl in Hn; lia].
  - destruct s as [|c s]; [done|].
    pose proof (starts_with_ci_universal p (String c s) Hlf Hcr) as Hhead.
    rewrite universal_newlines_cons in *.
    destruct (Ascii.eqb c CR) eqn:Hc.
    + apply Ascii.eqb_eq in Hc as ->.
      rewrite !search_ci_cons, !starts_with_ci_line_break by auto.
      destruct s as [|d s]; [by destruct p|].
      destruct (Ascii.eqb d LF) eqn:Hd.
      * apply Ascii.eqb_eq in Hd as ->.
        rewrite search_ci_cons, starts_with_ci_line_break by auto.
        apply IH. simpl in *. lia.
      * apply IH. simpl in *. lia.
    + rewrite !search_ci_cons, Hhead. f_equal. apply IH. simpl in *. lia.
Qed.

(** Translating line ends neither hides nor produces a plain pattern. *)
Lemma search_ci_universal p s :
  plain p = true -> search_ci p (universal_newlines s) = search_ci p s.
Proof. by apply (search_ci_universal_aux (String.length s)). Qed.

(** A pattern without line break cannot start in a complete line and run
    past its end. *)
Lemma starts_with_ci_complete p a b :
  occurs LF p = false -> complete a = true -> a <> "" ->
  starts_with_ci p (a +:+ b) = starts_with_ci p a.
Proof.
  revert a. induction p as [|x p IH]; intros a Hp Ha Hne; [done|].
  destruct a as [|c a]; [done|]. rewrite append_cons.
  simpl in Hp. apply orb_false_iff in Hp as [Hx Hp].
  destruct a as [|d a].
  - simpl in Ha. apply Ascii.eqb_eq in Ha as ->. simpl.
    change (lower LF) with LF. by rewrite lower_not_LF, Hx.
  - rewrite complete_cons in Ha. simpl starts_with_ci at 2.
    rewrite <- (IH (String d a)) by done. reflexivity.
Qed.

(** In a text that continues complete lines, a plain pattern is found
    either in those lines or in the continuation. *)
Lemma search_ci_complete p a b :
  plain p = true -> complete a = true ->
  search_ci p (a +:+ b) = search_ci p a || search_ci p b.
Proof.
  intros Hp. destruct (plain_no_break p Hp) as [Hlf _].
  induction a as [|c a IH]; intros Ha.
  - rewrite append_nil_l. by destruct p.
  - rewrite append_cons, !search_ci_cons.
    rewrite <- (append_cons c a b), starts_with_ci_complete by done.
    rewrite <- orb_assoc. f_equal.
    destruct a as [|d a].
    + rewrite append_nil_l. by destruct p.
    + apply IH. by rewrite complete_cons in Ha.
Qed.

End TextFacts.

(** * The rate limiter keeps its quota *)

Module RateLimiter.
Import Scraper Outcomes.

Section Invariant.
Variable world : nat -> request -> reply.

Lemma rate_limited_request_eq r s :
  rate_limited_request world r s =
  (outcome (world (length (net_log s)) r),
   after_request s (world (length (net_log s)) r) r).
Proof.
  unfold rate_limited_request, after_request, issue_time, requests_get, bind,
    gets, elapse, datetime_now, time_sleep, record_timestamp, modify, ret, raise.
  simpl. set (w := world (length (net_log s)) r).
  destruct (decide (length (request_timestamps s) = 5%nat)) as [H5|H5];
    [destruct (decide (_ < seconds 30)) as [Hlt|Hge]|];
    simpl; destruct (outcome w); reflexivity.
Qed.

Lemma issue_time_ge s w : clock s + Z.of_N (idle w) <= issue_time s w.
Proof. unfold issue_time. repeat case_decide; lia. Qed.

Lemma deque_oldest (log : list call) o :
  log !! 4%nat = Some o ->
  reverse (finished <$> take 5 log) =
  finished o :: reverse (finished <$> take 4 log).
Proof.
  intros Ho. rewrite (take_S_r log 4 o Ho), fmap_app. simpl.
  by rewrite reverse_snoc.
Qed.

Lemma deque_length (log : list call) :
  length (reverse (finished <$> take 5 log)) = 5%nat <-> (5 <= length log)%nat.
Proof. rewrite length_reverse, length_fmap, length_take. lia. Qed.

(** One call keeps the log chained, whatever its outcome, and keeps the deque
    in step with the log when it returns. *)
Lemma after_request_consistent s w r :
  consistent s ->
  chained (net_log (after_request s w r)) /\
  (is_ok (outcome w) = true -> consistent (after_request s w r)).
Proof.
  intros (Hts & Hclock & Hall & Hseq & Hgap).
  pose proof (issue_time_ge s w) as Hge.
  assert (chained (net_log (after_request s w r))) as Hch.
  { simpl. split; [|split].
    - constructor; [simpl; lia|done].
    - intros [|i] c o Hc Ho; simpl in *; [|by eapply Hseq].
      injection Hc as <-. simpl.
      assert (finished o <= clock s); [|lia].
      apply Hclock. by destruct (net_log s).
    - intros [|i] c o Hc Ho; simpl in *; [|by eapply Hgap].
      injection Hc as <-. simpl.
      unfold issue_time. rewrite Hts, (deque_oldest _ _ Ho). simpl.
      rewrite decide_True.
      2:{ pose proof (proj2 (deque_length (net_log s))) as Hlen.
          rewrite (deque_oldest _ _ Ho) in Hlen. apply Hlen.
          apply lookup_lt_Some in Ho. lia. }
      case_decide; lia. }
  split; [done|]. intros Hok. split; [|split; [|done]].
  - simpl. rewrite Hok. unfold deque_append.
    destruct (decide (length (request_timestamps s) = 5%nat)) as [H5|H5].
    + rewrite Hts in H5. apply deque_length in H5.
      destruct (lookup_lt_is_Some_2 (net_log s) 4 ltac:(lia)) as [o Ho].
      rewrite Hts, (deque_oldest _ _ Ho). simpl.
      by rewrite reverse_cons.
    + rewrite Hts in H5. rewrite deque_length in H5.
      rewrite Hts, !take_ge by lia.
      by rewrite reverse_cons.
  - simpl. intros c [= <-]. simpl. lia.
Qed.

Lemma fresh_consistent t0 fs : consistent (fresh t0 fs).
Proof.
  split; [done|]. split; [done|].
  split; [constructor|]. split; intros i c o H; simpl in H; by rewrite lookup_nil in H.
Qed.

(** A sequential client leaves a chained log behind, however it ends. *)
Lemma request_sequence_chained script s :
  consistent s -> chained (net_log (request_sequence world script s).2).
Proof.
  revert s. induction script as [|r rest IH]; intros s Hs.
  - apply Hs.
  - simpl. unfold bind. rewrite rate_limited_request_eq.
    destruct (after_request_consistent s (world (length (net_log s)) r) r Hs)
      as [Hch Hok].
    destruct (outcome _); [|exact Hch].
    apply IH, Hok. reflexivity.
Qed.

Lemma keeps_untimed {A : Type} (m : M state A) :
  (forall s, clock (m s).2 = clock s /\
             request_timestamps (m s).2 = request_timestamps s /\
             net_log (m s).2 = net_log s) ->
  keeps m.
Proof.
  intros Hsame s (Hts & Hclock & Hch). destruct (Hsame s) as (Hc & Ht & Hn).
  split; [by rewrite Hn|]. intros _. unfold consistent. by rewrite Hc, Ht, Hn.
Qed.

Lemma keeps_bind {A B : Type} (m : M state A) (k : A -> M state B) :
  keeps m -> (forall a, keeps (k a)) -> keeps (bind m k).
Proof.
  intros Hm Hk s Hs. unfold bind. destruct (Hm s Hs) as [Hch Hok].
  destruct (m s) as [[a|e] s1]; simpl in *; [|by split].
  apply Hk, Hok. reflexivity.
Qed.

Lemma keeps_ret {A : Type} (a : A) : keeps (ret a).
Proof. by apply keeps_untimed. Qed.

Lemma keeps_raise {A : Type} (e : exn) : keeps (@raise state A e).
Proof. by apply keeps_untimed. Qed.

Lemma keeps_print line : keeps (print line).
Proof. by apply keeps_untimed. Qed.

Lemma keeps_write_bytes path data : keeps (write_bytes path data).
Proof. by apply keeps_untimed. Qed.

Lemma keeps_append_text path data : keeps (append_text path data).
Proof. by apply keeps_untimed. Qed.

Lemma keeps_os_path_isfile path : keeps (os_path_isfile path).
Proof. by apply keeps_untimed. Qed.

Lemma keeps_read_text path : keeps (read_text path).
Proof.
  apply keeps_untimed. intros s. unfold read_text, bind, gets. simpl.
  by destruct (files s !! path).
Qed.

Lemma keeps_rate_limited_request r : keeps (rate_limited_request world r).
Proof.
  intros s Hs. rewrite rate_limited_request_eq. simpl.
  by apply after_request_consistent.
Qed.

Lemma keeps_for_each {A : Type} (l : list A) (body : A -> M state unit) :
  (forall x, keeps (body x)) -> keeps (for_each l body).
Proof.
  intros Hbody. induction l as [|x l IH]; [apply keeps_ret|].
  simpl. apply keeps_bind; [apply Hbody|]. intros _. exact IH.
Qed.

Variable extract_ids : string -> result (list string).
Variable repr_list : list string -> string.

Lemma keeps_get_mol nistid : keeps (get_mol world nistid).
Proof.
  unfold get_mol. apply keeps_bind; [apply keeps_os_path_isfile|].
  intros [|]; [apply keeps_print|].
  apply keeps_bind; [apply keeps_print|]. intros _.
  apply keeps_bind; [apply keeps_rate_limited_request|]. intros resp.
  case_decide; [apply keeps_print|].
  apply keeps_bind; [apply keeps_print|]. intros _. apply keeps_write_bytes.
Qed.

Lemma keeps_get_jdx nistid stype : keeps (get_jdx world nistid stype).
Proof.
  unfold get_jdx. apply keeps_bind; [apply keeps_os_path_isfile|].
  intros [|]; [apply keeps_print|].
  apply keeps_bind; [apply keeps_print|]. intros _.
  apply keeps_bind; [apply keeps_rate_limited_request|]. intros resp.
  case_decide; [apply keeps_print|].
  apply keeps_bind; [apply keeps_print|]. intros _. apply keeps_write_bytes.
Qed.

Lemma keeps_retreive_data_from_formula formula :
  keeps (retreive_data_from_formula world extract_ids repr_list formula).
Proof.
  unfold retreive_data_from_formula, search_nist_formula.
  apply keeps_bind.
  - apply keeps_bind; [apply keeps_print|]. intros _.
    apply keeps_bind; [apply keeps_rate_limited_request|]. intros resp.
    destruct (extract_ids (text resp)); [|apply keeps_raise].
    apply keeps_bind; [apply keeps_print|]. intros _. apply keeps_ret.
  - intros ids. apply keeps_for_each. intros nistid.
    apply keeps_bind; [apply keeps_get_mol|]. intros _. apply keeps_get_jdx.
Qed.

Lemma keeps_get_all_IR : keeps (get_all_IR world extract_ids repr_list).
Proof.
  unfold get_all_IR, formula_loop, id_loop, os_makedirs.
  do 2 (apply keeps_bind; [apply keeps_ret|]; intros _).
  apply keeps_bind; [apply keeps_read_text|]. intros data.
  destruct (enumerate _) as [formulae IDs].
  apply keeps_bind; [apply keeps_print|]. intros _.
  apply keeps_bind; [apply keeps_read_text|]. intros done_f.
  apply keeps_bind.
  { apply keeps_for_each. intros formula. case_decide; [apply keeps_ret|].
    apply keeps_bind; [apply keeps_retreive_data_from_formula|]. intros _.
    apply keeps_append_text. }
  intros _. do 2 (apply keeps_bind; [apply keeps_print|]; intros _).
  apply keeps_bind; [apply keeps_read_text|]. intros done_i.
  apply keeps_bind; [|intros _; apply keeps_print].
  apply keeps_for_each. intros nistid. case_decide; [apply keeps_ret|].
  apply keeps_bind; [apply keeps_get_mol|]. intros _.
  apply keeps_bind; [apply keeps_get_jdx|]. intros _.
  apply keeps_append_text.
Qed.

End Invariant.

(** Any choice of one instant per request, between its issue and its return,
    is spaced like the issue instants. *)
Lemma chained_spaced (log : list call) (at_ : call -> Z) :
  chained log ->
  (forall c, c ∈ log -> issued c <= at_ c <= finished c) ->
  spaced 5 (seconds 30) (at_ <$> log).
Proof.
  intros (Hall & Hseq & Hgap) Hat. rewrite Forall_forall in Hall.
  split; intros i x y Hx Hy; rewrite list_lookup_fmap in Hx, Hy;
    destruct (log !! i) as [c|] eqn:Hc; simplify_eq/=.
  - destruct (log !! S i) as [o|] eqn:Ho; simplify_eq/=.
    pose proof (Hseq i c o Hc Ho).
    pose proof (Hall c (list_elem_of_lookup_2 _ _ _ Hc)).
    pose proof (Hat c (list_elem_of_lookup_2 _ _ _ Hc)).
    pose proof (Hat o (list_elem_of_lookup_2 _ _ _ Ho)). lia.
  - destruct (log !! (i + 5)%nat) as [o|] eqn:Ho; simplify_eq/=.
    pose proof (Hgap i c o Hc Ho).
    pose proof (Hat c (list_elem_of_lookup_2 _ _ _ Hc)).
    pose proof (Hat o (list_elem_of_lookup_2 _ _ _ Ho)). lia.
Qed.

(** The same bound for any instant between issue and return, for instance
    the instant the request reached the server or the recorded timestamp. *)
Lemma rate_limit_any_instant (world : nat -> request -> reply)
    (script : list request) (t0 : Z) (fs : gmap string string)
    (at_ : call -> Z) (t : Z) :
  (forall c, c ∈ net_log (request_sequence world script (fresh t0 fs)).2 ->
     issued c <= at_ c <= finished c) ->
  (window_count (seconds 30) t
     (at_ <$> net_log (request_sequence world script (fresh t0 fs)).2) <= 5)%nat.
Proof.
  intros Hat. apply spaced_window_count; [lia|].
  apply chained_spaced; [|done].
  apply request_sequence_chained, fresh_consistent.
Qed.

(** The scraper itself stays within the quota, however its run ends. *)
Lemma get_all_IR_rate_limited (world : nat -> request -> reply)
    (extract_ids : string -> result (list string))
    (repr_list : list string -> string)
    (t0 : Z) (fs : gmap string string) (t : Z) :
  (window_count (seconds 30) t
     (issued <$> net_log (get_all_IR world extract_ids repr_list (fresh t0 fs)).2)
   <= 5)%nat.
Proof.
  destruct (keeps_get_all_IR world extract_ids repr_list (fresh t0 fs)
              (fresh_consistent t0 fs)) as [Hch _].
  apply spaced_window_count; [lia|]. apply chained_spaced; [done|].
  intros c Hc. destruct Hch as (Hall & _). rewrite Forall_forall in Hall.
  specialize (Hall c Hc). lia.
Qed.

(** C1 (rate limit). Whatever the endpoint and the scheduler do and
    whatever a sequential client asks for, at every instant [t] at most five
    of the requests let out so far were issued during the 30 seconds that
    end at [t] (a request exactly 30 seconds old is out of the window, as in
    the test [time_since_oldest < 30] of the code). The limiter gets there
    as the code says: entered with five recorded timestamps of which the
    oldest is less than 30 seconds old, it sleeps for exactly the time
    missing, so that the request goes out 30 seconds after that oldest
    timestamp (plus whatever the sleep overran), and on return the oldest
    timestamp gives way to the new one. *)
Theorem rate_limit_respected (world : nat -> request -> reply)
    (script : list request) (t0 : Z) (fs : gmap string string) :
  (forall t : Z,
     (window_count (seconds 30) t
        (issued <$> net_log (request_sequence world script (fresh t0 fs)).2) <= 5)%nat) /\
  (forall (s : state) (r : request) (oldest : Z),
     let w := world (length (net_log s)) r in
     let s' := (rate_limited_request world r s).2 in
     length (request_timestamps s) = 5%nat ->
     head (request_timestamps s) = Some oldest ->
     clock s + Z.of_N (idle w) - oldest < seconds 30 ->
     exists c : call,
       net_log s' = c :: net_log s /\
       issued c = oldest + seconds 30 + Z.of_N (overshoot w) /\
       finished c = clock s' /\
       (is_ok (outcome w) = true ->
        request_timestamps s' = tail (request_timestamps s) ++ [finished c])).
Proof.
  split.
  - intros t. apply spaced_window_count; [lia|].
    apply chained_spaced.
    + apply request_sequence_chained, fresh_consistent.
    + intros c Hc.
      assert (chained (net_log (request_sequence world script (fresh t0 fs)).2))
        as (Hall & _) by apply request_sequence_chained, fresh_consistent.
      rewrite Forall_forall in Hall. specialize (Hall c Hc). lia.
  - intros s r oldest w s' H5 Hhead Hlt. subst s'.
    rewrite rate_limited_request_eq. fold w. simpl.
    eexists. split; [reflexivity|]. simpl.
    unfold issue_time. rewrite Hhead. simpl.
    rewrite !decide_True by done.
    split; [lia|]. split; [done|].
    intros ->. unfold deque_append. by rewrite decide_True.
Qed.

(** After five requests at instant 0 a sixth, asked for at once, goes out
    at instant 30 s. *)
Lemma rate_limit_respected_witness :
  exists c : call,
    net_log (rate_limited_request instant_world ping five_done).2
      = c :: net_log five_done /\
    issued c = 0 + seconds 30 + Z.of_N 0 /\
    finished c = clock (rate_limited_request instant_world ping five_done).2 /\
    (true = true ->
     request_timestamps (rate_limited_request instant_world ping five_done).2
       = tail (request_timestamps five_done) ++ [finished c]).
Proof.
  apply (proj2 (rate_limit_respected instant_world [] 0 ∅) five_done ping 0);
    vm_compute; [reflexivity|reflexivity|reflexivity].
Defined.

(** Seven requests asked for at instant 0 (newest first): five go out at
    once, the sixth and the seventh exactly 30 seconds later, at the instant
    at which the first five leave the window. *)
Example seven_requests_issued :
  issued <$> net_log
    (request_sequence instant_world [ping; ping; ping; ping; ping; ping; ping]
       (fresh 0 ∅)).2
  = [seconds 30; seconds 30; 0; 0; 0; 0; 0].
Proof. vm_compute. reflexivity. Qed.

End RateLimiter.

(** * Fetching one artifact *)

Module Fetch.
Import Scraper Outcomes.

Section World.
Variable world : nat -> request -> reply.

(** [fetch] in closed form, one line per way out of the function. *)
Lemma fetch_eq k nistid s :
  fetch world k nistid s =
  if bool_decide (is_Some (files s !! filepath_of k nistid)) then
    (Ok tt, said (says_exists k nistid) s)
  else
    match outcome (next_reply world s (request_of k nistid)) with
    | Raise e => (Raise e, asked world k nistid s)
    | Ok resp =>
        if decide (text resp = sentinel_of k) then
          (Ok tt, said (says_not_found k nistid) (asked world k nistid s))
        else
          (Ok tt, written (filepath_of k nistid) (content resp)
                    (said ("Saving " +:+ filepath_of k nistid) (asked world k nistid s)))
    end.
Proof.
  destruct k as [stype|]; simpl;
    [unfold get_jdx|unfold get_mol];
    unfold bind, os_path_isfile, gets;
    (case_bool_decide; [reflexivity|]);
    unfold print, emit, modify; rewrite RateLimiter.rate_limited_request_eq;
    unfold asked, next_reply, said, after_request; simpl;
    (destruct (outcome _) as [resp|e]; [|reflexivity]);
    case_decide; reflexivity.
Qed.

(** C6 (skip what is present). When the file of an artifact is already at
    its path, [get_jdx] and [get_mol] return at once: they say so and do
    nothing else. No request goes out (the request log, the clock and the
    recorded timestamps are as before) and no file changes, whatever the
    checkpoint files hold. *)
Theorem present_artifact_skipped (k : artifact) (nistid : string) (s : state) :
  is_Some (files s !! filepath_of k nistid) ->
  (fetch world k nistid s).1 = Ok tt /\
  net_log (fetch world k nistid s).2 = net_log s /\
  files (fetch world k nistid s).2 = files s /\
  clock (fetch world k nistid s).2 = clock s /\
  request_timestamps (fetch world k nistid s).2 = request_timestamps s /\
  trace (fetch world k nistid s).2 = trace s ++ outcome_events k nistid Skipped.
Proof.
  intros Hfile. rewrite fetch_eq, bool_decide_eq_true_2 by done.
  repeat split.
Qed.

(** C7 (sentinel bodies). When the artifact is not on disk and the request
    is answered, the body decides: the fixed not-found text of the artifact
    kind, compared exactly, ends the fetch with no file written; any other
    body has the bytes of the response written at the path of the
    artifact. *)
Theorem response_classified (k : artifact) (nistid : string) (s : state)
    (resp : response) :
  files s !! filepath_of k nistid = None ->
  outcome (next_reply world s (request_of k nistid)) = Ok resp ->
  (fetch world k nistid s).1 = Ok tt /\
  (text resp = sentinel_of k ->
   files (fetch world k nistid s).2 = files s /\
   trace (fetch world k nistid s).2 = trace s ++ outcome_events k nistid NotFound) /\
  (text resp <> sentinel_of k ->
   files (fetch world k nistid s).2 = <[filepath_of k nistid := content resp]> (files s) /\
   trace (fetch world k nistid s).2
     = trace s ++ outcome_events k nistid (Saved (content resp))).
Proof.
  intros Hfile Hout. rewrite fetch_eq, bool_decide_eq_false_2.
  2:{ rewrite Hfile. by intros [? ?]. }
  rewrite Hout.
  case_decide as Htext; simpl; (split; [done|]);
    (split; intros H; [|]); try contradiction;
    (split; [done|]); by rewrite <- !app_assoc.
Qed.

End World.

Lemma present_artifact_skipped_witness :
  (fetch empty_world Structure "C71432" (fresh 0 {[ "mol/C71432.mol" := "x" ]})).1
    = Ok tt /\
  net_log (fetch empty_world Structure "C71432"
             (fresh 0 {[ "mol/C71432.mol" := "x" ]})).2 = [].
Proof.
  pose proof (present_artifact_skipped empty_world Structure "C71432"
                (fresh 0 {[ "mol/C71432.mol" := "x" ]})) as H.
  destruct H as (H1 & H2 & _).
  - exists "x". vm_compute. reflexivity.
  - split; [exact H1|exact H2].
Defined.

Lemma response_classified_witness :
  (fetch empty_world Structure "C71432" (fresh 0 ∅)).1 = Ok tt /\
  files (fetch empty_world Structure "C71432" (fresh 0 ∅)).2 = ∅.
Proof.
  pose proof (response_classified empty_world Structure "C71432" (fresh 0 ∅)
                {| text := MOL_NOT_FOUND; content := MOL_NOT_FOUND |}) as H.
  destruct H as (H1 & H2 & _).
  - vm_compute. reflexivity.
  - reflexivity.
  - split; [exact H1|]. apply H2. reflexivity.
Defined.

(** The same request answered with a spectrum: the bytes land in the file. *)
Example spectrum_saved :
  let w : nat -> request -> reply := fun _ _ =>
    {| idle := 0; overshoot := 0; latency := 0;
       outcome := Ok {| text := "##TITLE=BENZENE"; content := "##TITLE=BENZENE" |} |} in
  files (fetch w (Spectrum "IR") "C71432" (fresh 0 ∅)).2
    = {[ "jdx/C71432-IR.jdx" := "##TITLE=BENZENE" ]}.
Proof. vm_compute. reflexivity. Qed.

End Fetch.

(** * The checkpointed work loop *)

Module WorkQueue.
Import Scraper Outcomes Fetch.

Section World.
Variable world : nat -> request -> reply.
Variable extract_ids : string -> result (list string).
Variable repr_list : list string -> string.

Lemma for_each_checkpointed done path item_events step items s :
  checkpointed_step done path item_events step ->
  exists evs,
    trace (for_each items step s).2 = trace s ++ evs /\
    checkpointed_run done path item_events items
      (is_ok (for_each items step s).1) evs.
Proof.
  intros Hstep. revert s. induction items as [|item items IH]; intros s.
  - exists []. simpl. rewrite app_nil_r. split; [done|constructor].
  - simpl. unfold bind. destruct (Hstep item s) as [Hdone Hnew].
    destruct (decide (item ∈ done)) as [Hin|Hin].
    + rewrite (Hdone Hin). destruct (IH s) as (evs & Htr & Hrun).
      exists evs. split; [done|]. by constructor.
    + destruct (Hnew Hin) as (evs & Htr & Hevs).
      destruct (step item s) as [[[]|e] s1]; simpl in *.
      * destruct Hevs as (fetched & Hitem & ->).
        destruct (IH s1) as (rest & Htr' & Hrun).
        exists (fetched ++ EvAppend path (item +:+ Text.newline) :: rest).
        split.
        -- rewrite Htr', Htr, <- !app_assoc. reflexivity.
        -- by constructor.
      * exists evs. split; [done|]. by constructor.
  Qed.

(** Whatever a fetch does, it appends to no checkpoint file; when it
    returns, it went one of the three ways. *)
Lemma fetch_events k nistid s :
  exists evs,
    trace (fetch world k nistid s).2 = trace s ++ evs /\
    quiet evs /\
    (is_ok (fetch world k nistid s).1 = true ->
     exists o, evs = outcome_events k nistid o).
Proof.
  unfold quiet. rewrite fetch_eq. case_bool_decide.
  - exists (outcome_events k nistid Skipped). simpl.
    split; [done|]. split; [by repeat constructor|]. by exists Skipped.
  - destruct (outcome _) as [resp|e]; [case_decide|].
    + exists (outcome_events k nistid NotFound). simpl.
      split; [by rewrite <- !app_assoc|].
      split; [by repeat constructor|]. by exists NotFound.
    + exists (outcome_events k nistid (Saved (content resp))). simpl.
      split; [by rewrite <- !app_assoc|].
      split; [by repeat constructor|]. by eexists (Saved _).
    + exists [EvPrint (says_downloading k nistid); EvRequest (request_of k nistid)].
      simpl. split; [by rewrite <- !app_assoc|].
      split; [by repeat constructor|]. done.
Qed.

Lemma fetch_record_events nistid s :
  exists evs,
    trace (fetch_record world nistid s).2 = trace s ++ evs /\
    quiet evs /\
    (is_ok (fetch_record world nistid s).1 = true ->
     exists o_mol o_jdx,
       evs = outcome_events Structure nistid o_mol
             ++ outcome_events (Spectrum "IR") nistid o_jdx).
Proof.
  unfold fetch_record, bind.
  destruct (fetch_events Structure nistid s) as (e1 & Ht1 & Hq1 & Ho1).
  simpl in *. destruct (get_mol world nistid s) as [[[]|e] s1]; simpl in *.
  - destruct (fetch_events (Spectrum "IR") nistid s1) as (e2 & Ht2 & Hq2 & Ho2).
    simpl in *. exists (e1 ++ e2).
    split; [by rewrite Ht2, Ht1, app_assoc|].
    split; [by apply Forall_app|].
    intros Hok. destruct (Ho1 eq_refl) as [o1 ->].
    destruct (Ho2 Hok) as [o2 ->]. by exists o1, o2.
  - exists e1. split; [done|]. split; [done|]. done.
Qed.

Lemma bind_assoc {S A B C : Type} (m : M S A) (f : A -> M S B) (g : B -> M S C) s :
  bind (bind m f) g s = bind m (fun a => bind (f a) g) s.
Proof. unfold bind. by destruct (m s) as [[a|e] s1]. Qed.

Lemma for_each_records ids s :
  exists evs,
    trace (for_each ids (fetch_record world) s).2 = trace s ++ evs /\
    quiet evs /\
    (is_ok (for_each ids (fetch_record world) s).1 = true -> records_fetched ids evs).
Proof.
  revert s. induction ids as [|nistid ids IH]; intros s.
  - exists []. simpl. rewrite app_nil_r. split; [done|].
    split; [constructor|]. constructor.
  - simpl. unfold bind.
    destruct (fetch_record_events nistid s) as (e1 & Ht1 & Hq1 & Ho1).
    destruct (fetch_record world nistid s) as [[[]|e] s1]; simpl in *.
    + destruct (IH s1) as (e2 & Ht2 & Hq2 & Ho2). exists (e1 ++ e2).
      split; [by rewrite Ht2, Ht1, app_assoc|].
      split; [by apply Forall_app|].
      intros Hok. destruct (Ho1 eq_refl) as (o1 & o2 & ->).
      rewrite <- app_assoc. constructor. by apply Ho2.
    + exists e1. split; [done|]. split; [done|]. done.
Qed.

(** The search request of a formula, in closed form. *)
Lemma search_nist_formula_eq formula a b c d e s :
  let r := (NIST_URL, search_params formula a b c d e) in
  let s1 := after_request (said ("Searching: " +:+ formula) s)
              (next_reply world s r) r in
  search_nist_formula world extract_ids repr_list formula a b c d e s =
  match outcome (next_reply world s r) with
  | Raise ex => (Raise ex, s1)
  | Ok resp =>
      match extract_ids (text resp) with
      | Raise ex => (Raise ex, s1)
      | Ok ids => (Ok ids, said ("Result: " +:+ repr_list ids) s1)
      end
  end.
Proof.
  intros r s1. subst r s1.
  unfold search_nist_formula, bind, print, emit, modify.
  rewrite RateLimiter.rate_limited_request_eq.
  unfold next_reply, said, after_request. simpl.
  destruct (outcome _) as [resp|ex]; [|reflexivity].
  destruct (extract_ids _); reflexivity.
Qed.

Lemma retreive_data_from_formula_events formula s :
  exists evs,
    trace (retreive_data_from_formula world extract_ids repr_list formula s).2
      = trace s ++ evs /\
    quiet evs /\
    (is_ok (retreive_data_from_formula world extract_ids repr_list formula s).1 = true ->
     formula_events repr_list formula evs).
Proof.
  change (retreive_data_from_formula world extract_ids repr_list formula)
    with (bind (search_nist_formula world extract_ids repr_list formula
                  true false true false true)
            (fun ids => for_each ids (fetch_record world))).
  unfold bind. rewrite search_nist_formula_eq.
  set (r := (NIST_URL, search_params formula true false true false true)).
  set (searching := EvPrint ("Searching: " +:+ formula)).
  destruct (outcome _) as [resp|ex]; [destruct (extract_ids _) as [ids|ex]|].
  - cbv beta iota.
    match goal with |- context [for_each ids _ ?s1] =>
      destruct (for_each_records ids s1) as (evs & Ht & Hq & Ho) end.
    exists (searching :: EvRequest r :: EvPrint ("Result: " +:+ repr_list ids) :: evs).
    split; [|split].
    + rewrite Ht. simpl. by rewrite <- !app_assoc.
    + by repeat constructor.
    + intros Hok. exists ids, evs. split; [by apply Ho|done].
  - exists [searching; EvRequest r]. simpl.
    split; [by rewrite <- !app_assoc|]. split; [by repeat constructor|done].
  - exists [searching; EvRequest r]. simpl.
    split; [by rewrite <- !app_assoc|]. split; [by repeat constructor|done].
Qed.

(** A step that fetches and then appends behaves as a checkpointed step. *)
Lemma fetch_then_append done path item_events (process : string -> M state unit) :
  (forall item s, exists evs,
     trace (process item s).2 = trace s ++ evs /\ quiet evs /\
     (is_ok (process item s).1 = true -> item_events item evs)) ->
  checkpointed_step done path item_events (fun item =>
    if decide (item ∈ done) then ret tt
    else bind (process item) (fun _ => append_text path (item +:+ Text.newline))).
Proof.
  intros Hproc item s. split; intros Hin.
  - by rewrite decide_True.
  - rewrite decide_False by done. unfold bind.
    destruct (Hproc item s) as (evs & Ht & Hq & Ho).
    destruct (process item s) as [[[]|ex] s1]; simpl in *.
    + exists (evs ++ [EvAppend path (item +:+ Text.newline)]).
      split; [by rewrite Ht, app_assoc|]. exists evs. split; [by apply Ho|done].
    + by exists evs.
Qed.

(** An exception goes through whatever was to follow. *)
Lemma bind_raise {S A B : Type} (m : M S A) (k : A -> M S B) (e : exn) (s s' : S) :
  m s = (Raise e, s') -> bind m k s = (Raise e, s').
Proof. unfold bind. by intros ->. Qed.

Lemma for_each_ext {S A : Type} (l : list A) (f g : A -> M S unit) s :
  (forall x s', f x s' = g x s') -> for_each l f s = for_each l g s.
Proof.
  intros Hfg. revert s. induction l as [|x l IH]; intros s; [done|].
  simpl. unfold bind. rewrite Hfg. destruct (g x s) as [[[]|e] s1]; [apply IH|done].
Qed.

(** C4 (checkpoint after fetch). The effects of each of the two loops of
    [get_all_IR], started in any state with any set of done keys, are those
    of a checkpointed run: an item that is not done is appended to its
    checkpoint file only after its whole fetch sequence completed (for a
    formula the search and both artifacts of every record found, for a raw
    ID both artifacts, each ending saved, skipped or not found), and when
    anything raises during the fetch sequence of an item the loop ends there
    with the exception, with nothing appended since that item began. *)
Theorem checkpoint_after_fetch (done_formulae done_IDs : gset string)
    (formulae IDs : list string) (s : state) :
  (exists evs,
     trace (formula_loop world extract_ids repr_list done_formulae formulae s).2
       = trace s ++ evs /\
     checkpointed_run done_formulae "done_formulae.txt" (formula_events repr_list)
       formulae
       (is_ok (formula_loop world extract_ids repr_list done_formulae formulae s).1)
       evs) /\
  (exists evs,
     trace (id_loop world done_IDs IDs s).2 = trace s ++ evs /\
     checkpointed_run done_IDs "done_IDs.txt" id_events IDs
       (is_ok (id_loop world done_IDs IDs s).1) evs).
Proof.
  split.
  - unfold formula_loop.
    apply for_each_checkpointed, fetch_then_append.
    apply retreive_data_from_formula_events.
  - unfold id_loop.
    rewrite (for_each_ext IDs _ (fun item =>
      if decide (item ∈ done_IDs) then ret tt
      else bind (fetch_record world item)
             (fun _ => append_text "done_IDs.txt" (item +:+ Text.newline)))).
    2:{ intros nistid s'. case_decide; [done|].
        unfold fetch_record. by rewrite bind_assoc. }
    apply for_each_checkpointed, fetch_then_append.
    intros item s'. destruct (fetch_record_events item s') as (evs & Ht & Hq & Ho).
    exists evs. split; [done|]. split; [done|].
    intros Hok. destruct (Ho Hok) as (o1 & o2 & ->).
    unfold id_events.
    rewrite <- (app_nil_r (outcome_events (Spectrum "IR") item o2)).
    repeat constructor.
Qed.

End World.

Lemma outcome_events_quiet k nistid o : quiet (outcome_events k nistid o).
Proof. destruct o; by repeat constructor. Qed.

Lemma records_fetched_quiet ids evs : records_fetched ids evs -> quiet evs.
Proof.
  induction 1 as [|nistid ids o1 o2 evs _ IH]; [constructor|].
  unfold quiet. rewrite !Forall_app.
  split; [apply outcome_events_quiet|]. split; [apply outcome_events_quiet|done].
Qed.

(** Reading a checkpointed run backwards: every append found in it stands
    right behind the completed fetch sequence of an item of the list that was
    not done, and it appends that item. *)
Lemma append_follows_fetch done path item_events items ok evs pre e post :
  (forall item fetched, item_events item fetched -> quiet fetched) ->
  checkpointed_run done path item_events items ok evs ->
  evs = pre ++ e :: post -> is_append e = true ->
  exists item before fetched,
    (item ∈ items) /\ (item ∉ done) /\ item_events item fetched /\
    pre = before ++ fetched /\ e = EvAppend path (item +:+ Text.newline).
Proof.
  intros Hquiet Hrun. revert pre.
  induction Hrun as [|item items ok evs Hin _ IH
                     |item items ok fetched evs Hin Hitem _ IH
                     |item items partial Hin Hq]; intros pre Heq He.
  - by destruct pre.
  - destruct (IH pre Heq He) as (it & before & f & H1 & H2).
    exists it, before, f. split; [apply elem_of_cons; by right|]. done.
  - apply app_eq_app in Heq as [l [[Hf Hl]|[Hp Hl]]].
    + destruct l as [|x l]; simpl in Hl.
      * injection Hl as -> ->. rewrite app_nil_r in Hf. subst fetched.
        exists item, [], pre. split; [apply elem_of_cons; by left|]. done.
      * injection Hl as -> _.
        pose proof (Hquiet _ _ Hitem) as Hq. unfold quiet in Hq.
        rewrite Hf, Forall_app, Forall_cons in Hq. destruct Hq as (_ & Hx & _).
        congruence.
    + destruct l as [|x l]; simpl in Hl.
      * injection Hl as <- _. rewrite app_nil_r in Hp. subst pre.
        exists item, [], fetched. split; [apply elem_of_cons; by left|]. done.
      * injection Hl as <- Hevs.
        destruct (IH l Hevs He) as (it & before & f & H1 & H2 & H3 & H4 & H5).
        exists it, (fetched ++ EvAppend path (item +:+ Text.newline) :: before), f.
        split; [apply elem_of_cons; by right|]. split; [done|]. split; [done|].
        split; [|done]. rewrite Hp, H4, <- app_assoc. reflexivity.
  - unfold quiet in Hq. rewrite Heq, Forall_app, Forall_cons in Hq.
    destruct Hq as (_ & Hx & _). congruence.
Qed.

End WorkQueue.

(** * The checkpoint files *)

Module Checkpoint.
Import Scraper Outcomes Fetch TextFacts.

Lemma done_set_append (old key : string) :
  Text.complete old = true -> Text.clean_key key = true ->
  done_set (Text.universal_newlines (old +:+ key +:+ Text.newline))
  = done_set (Text.universal_newlines old) ∪ {[ key ]}.
Proof.
  intros Hold Hkey. unfold Text.clean_key in Hkey.
  apply andb_true_iff in Hkey as [Hkey Hcr].
  apply andb_true_iff in Hkey as [Hstrip Hlf].
  apply String.eqb_eq in Hstrip.
  apply negb_true_iff in Hcr, Hlf.
  unfold done_set.
  rewrite universal_newlines_append by done.
  rewrite lines_append by by apply universal_newlines_complete.
  rewrite universal_newlines_append_key.
  - rewrite lines_single by done.
    rewrite fmap_app, list_to_set_app_L. simpl.
    by rewrite strip_newline, Hstrip, (right_id_L ∅ (∪)).
  - done.
Qed.

(** Every key the work list yields is clean: a formula is a piece that
    [split] handed out, a raw ID is a stripped line. *)
Lemma enumerate_clean (text : string) (entries : list string) :
  (forall entry, entry ∈ entries -> entry ∈ Text.lines (Text.universal_newlines text)) ->
  Forall (fun key => Text.clean_key key = true) (enumerate entries).1 /\
  Forall (fun key => Text.clean_key key = true) (enumerate entries).2.
Proof.
  induction entries as [|entry entries IH]; intros Hall; [by split|].
  destruct IH as [IHf IHi].
  { intros e He. apply Hall, elem_of_cons. by right. }
  simpl. destruct (enumerate entries) as [formulae IDs]. simpl in *.
  destruct (Text.from_end (Text.split entry) 2) as [formula|] eqn:E; simpl.
  - split; [|done]. constructor; [|done].
    apply spaceless_clean. apply from_end_elem in E.
    pose proof (split_spaceless entry) as Hsp. rewrite Forall_forall in Hsp.
    by apply Hsp.
  - split; [done|]. constructor; [|done].
    apply (stripped_line_clean text), Hall, elem_of_cons. by left.
Qed.

(** A checkpoint file the program has appended to is made of complete
    lines. *)
Lemma marked_file_complete (path key : string) (s : state) :
  exists data,
    files (markDone path key s).2 !! path = Some data /\
    Text.complete data = true.
Proof.
  eexists. split; [apply lookup_insert_eq|]. apply complete_snoc.
Qed.

Lemma reload_after_mark (path key : string) (s : state) :
  reload path (markDone path key s).2
  = (Ok (done_set (Text.universal_newlines
                     (default "" (files s !! path) +:+ key +:+ Text.newline))),
     (markDone path key s).2).
Proof.
  unfold reload, markDone, append_text, read_text, bind, modify, gets. simpl.
  by rewrite lookup_insert_eq.
Qed.

(** C5, as the code has it (durable checkpoints). A key as the work list
    yields them, appended to a checkpoint file made of complete lines, is in
    the set the next startup reads from the file, together with every key
    that was there before; appending the same key once more changes nothing
    in that set. (Within one run the set is the one read at startup: the
    program never adds to it.) *)
Theorem checkpoint_survives_reload (path key : string) (s : state) :
  Text.complete (default "" (files s !! path)) = true ->
  Text.clean_key key = true ->
  let old := done_set (Text.universal_newlines (default "" (files s !! path))) in
  let once := (markDone path key s).2 in
  let twice := (markDone path key once).2 in
  (reload path once).1 = Ok (old ∪ {[ key ]}) /\
  isDone (old ∪ {[ key ]}) key = true /\
  (reload path twice).1 = Ok (old ∪ {[ key ]}).
Proof.
  intros Hold Hkey old once twice. subst old once twice.
  split; [|split].
  - by rewrite reload_after_mark, done_set_append.
  - apply bool_decide_eq_true_2, elem_of_union_r, elem_of_singleton_2. done.
  - rewrite reload_after_mark. simpl. rewrite lookup_insert_eq. simpl.
    rewrite done_set_append by (done || apply complete_snoc).
    rewrite done_set_append by done.
    by rewrite <- (assoc_L (∪)), (idemp_L (∪)).
Qed.

Lemma checkpoint_survives_reload_witness :
  (reload "done_IDs.txt"
     (markDone "done_IDs.txt" "C71432"
        (fresh 0 {[ "done_IDs.txt" := "C50000" +:+ Text.newline ]})).2).1
  = Ok ({[ "C50000" ]} ∪ {[ "C71432" ]}).
Proof.
  pose proof (checkpoint_survives_reload "done_IDs.txt" "C71432"
                (fresh 0 {[ "done_IDs.txt" := "C50000" +:+ Text.newline ]})) as H.
  destruct H as (H1 & _).
  - vm_compute. reflexivity.
  - vm_compute. reflexivity.
  - rewrite H1. f_equal.
Defined.

(** C5, as the claim has it, fails within a run: the set read at startup
    does not contain a key appended afterwards, so a key that occurs twice in
    the work list is fetched twice and appended twice. *)
Lemma mark_then_test_in_same_run :
  (bind (reload "done_IDs.txt") (fun done =>
     bind (markDone "done_IDs.txt" "C71432") (fun _ =>
       ret (isDone done "C71432")))
     (fresh 0 {[ "done_IDs.txt" := "" ]})).1 = Ok false /\
  length (net_log (id_loop empty_world (done_set "") ["C71432"; "C71432"]
                     (fresh 0 {[ "done_IDs.txt" := "" ]})).2) = 4%nat /\
  files (id_loop empty_world (done_set "") ["C71432"; "C71432"]
           (fresh 0 {[ "done_IDs.txt" := "" ]})).2 !! "done_IDs.txt"
  = Some ("C71432" +:+ Text.newline +:+ "C71432" +:+ Text.newline).
Proof. vm_compute. repeat split. Qed.

Section World.
Variable world : nat -> request -> reply.
Variable extract_ids : string -> result (list string).
Variable repr_list : list string -> string.

Lemma bind_eq {S A B : Type} (m : M S A) (k : A -> M S B) (a : A) (s s' : S) :
  m s = (Ok a, s') -> bind m k s = k a s'.
Proof. unfold bind. by intros ->. Qed.

Lemma read_text_present (path data : string) (s : state) :
  files s !! path = Some data ->
  read_text path s = (Ok (Text.universal_newlines data), s).
Proof. unfold read_text, bind, gets. by intros ->. Qed.

(** A loop over items that are all done does nothing at all. *)
Lemma for_each_all_done (done : gset string) (work : string -> M state unit)
    (items : list string) (s : state) :
  (forall item, item ∈ items -> item ∈ done) ->
  for_each items (fun item => if decide (item ∈ done) then ret tt else work item) s
  = (Ok tt, s).
Proof.
  induction items as [|item items IH]; intros Hall; [done|].
  simpl. unfold bind. rewrite decide_True by (apply Hall, elem_of_cons; by left).
  simpl. apply IH. intros x Hx. apply Hall, elem_of_cons. by right.
Qed.

(** C8 (nothing to do). When every formula and every raw ID of the work
    list is in the set read from its checkpoint file, [get_all_IR] ends
    normally having only reported its progress: no request went out and no
    file was written or appended to. *)
Theorem all_done_no_network (s : state) (species done_f done_i : string)
    (formulae IDs : list string) :
  files s !! "species.txt" = Some species ->
  files s !! "done_formulae.txt" = Some done_f ->
  files s !! "done_IDs.txt" = Some done_i ->
  enumerate (Text.lines (Text.universal_newlines species)) = (formulae, IDs) ->
  (forall f, f ∈ formulae -> f ∈ done_set (Text.universal_newlines done_f)) ->
  (forall i, i ∈ IDs -> i ∈ done_set (Text.universal_newlines done_i)) ->
  (get_all_IR world extract_ids repr_list s).1 = Ok tt /\
  net_log (get_all_IR world extract_ids repr_list s).2 = net_log s /\
  files (get_all_IR world extract_ids repr_list s).2 = files s /\
  trace (get_all_IR world extract_ids repr_list s).2
  = trace s ++
    [EvPrint ("Processing " +:+ pretty (length formulae) +:+ " formulas...");
     EvPrint "Done with formulas!";
     EvPrint ("Processing " +:+ pretty (length IDs) +:+ " IDs...");
     EvPrint "Done Scraping Data!"].
Proof.
  intros Hsp Hdf Hdi Henum Hf Hi.
  unfold get_all_IR, formula_loop, id_loop.
  do 2 (erewrite bind_eq by reflexivity).
  erewrite bind_eq by by apply read_text_present.
  cbv beta. rewrite Henum. cbv beta iota.
  erewrite bind_eq by reflexivity.
  erewrite bind_eq by by apply read_text_present.
  erewrite bind_eq by by apply for_each_all_done.
  do 2 (erewrite bind_eq by reflexivity).
  erewrite bind_eq by by apply read_text_present.
  erewrite bind_eq by by apply for_each_all_done.
  unfold print, emit, modify. cbn [fst snd net_log files trace].
  repeat split. by rewrite <- !app_assoc.
Qed.

End World.

Lemma all_done_no_network_witness :
  let fs : gmap string string :=
    {[ "species.txt" := "C6H6 78.11" +:+ Text.newline +:+ "C71432" +:+ Text.newline;
       "done_formulae.txt" := "C6H6" +:+ Text.newline;
       "done_IDs.txt" := "C71432" +:+ Text.newline ]} in
  (get_all_IR empty_world (fun _ => Ok []) (fun _ => "[]") (fresh 0 fs)).1 = Ok tt /\
  net_log (get_all_IR empty_world (fun _ => Ok []) (fun _ => "[]") (fresh 0 fs)).2 = [].
Proof.
  intros fs.
  pose proof (all_done_no_network empty_world (fun _ => Ok []) (fun _ => "[]")
                (fresh 0 fs)
                ("C6H6 78.11" +:+ Text.newline +:+ "C71432" +:+ Text.newline)
                ("C6H6" +:+ Text.newline) ("C71432" +:+ Text.newline)
                ["C6H6"] ["C71432"]) as H.
  destruct H as (H1 & H2 & _); try (vm_compute; reflexivity).
  - intros f Hf. apply list_elem_of_singleton in Hf as ->. vm_compute. reflexivity.
  - intros i Hi. apply list_elem_of_singleton in Hi as ->. vm_compute. reflexivity.
  - split; [exact H1|exact H2].
Defined.

(** The scenario of the specification: the formula [H2O] yields record "1",
    whose two artifacts are saved; the raw ID [NOTFOUNDID] has neither
    artifact, and no file is written for it; both items end up marked done,
    after five requests. *)
Example scenario_two_items :
  let s := (get_all_IR one_record_world (fun _ => Ok ["1"]) (fun _ => "['1']")
              (fresh 0 two_items)) in
  s.1 = Ok tt /\
  files s.2 = <[ "mol/1.mol" := "water.mol" ]>
                (<[ "jdx/1-IR.jdx" := "##TITLE=WATER" ]>
                   (<[ "done_formulae.txt" := "H2O" +:+ Text.newline ]>
                      (<[ "done_IDs.txt" := "NOTFOUNDID" +:+ Text.newline ]> two_items))) /\
  length (net_log s.2) = 5%nat.
Proof. vm_compute. repeat split. Qed.

End Checkpoint.

(** * One supervised run *)

Module Classifier.
Import Supervisor Verdicts TextFacts.

Lemma failure_patterns_plain : forallb Text.plain failure_patterns = true.
Proof. vm_compute. reflexivity. Qed.

Lemma existsb_ext {A : Type} (f g : A -> bool) (l : list A) :
  (forall x, In x l -> f x = g x) -> existsb f l = existsb g l.
Proof.
  induction l as [|x l IH]; intros H; [done|]. simpl.
  rewrite (H x) by by left. rewrite IH; [done|]. intros y Hy. apply H. by right.
Qed.

(** Reading the log in text mode does not change what [is_failure] finds. *)
Lemma is_failure_universal (text : string) :
  is_failure (Text.universal_newlines text) = is_failure text.
Proof.
  unfold is_failure. apply existsb_ext. intros p Hp.
  apply search_ci_universal.
  pose proof failure_patterns_plain as Hall.
  rewrite forallb_forall in Hall. by apply Hall.
Qed.

(** A signature once in the log stays in the log. *)
Lemma is_failure_append_l (a b : string) :
  is_failure a = true -> is_failure (a +:+ b) = true.
Proof.
  unfold is_failure. rewrite !existsb_exists.
  intros (p & Hp & Hfound). exists p. split; [done|]. by apply search_ci_append_l.
Qed.

Lemma is_failure_append_r (a b : string) :
  is_failure b = true -> is_failure (a +:+ b) = true.
Proof.
  unfold is_failure. rewrite !existsb_exists.
  intros (p & Hp & Hfound). exists p. split; [done|]. by apply search_ci_append_r.
Qed.

(** After complete lines without signature, only what follows counts. *)
Lemma is_failure_after_clean (a b : string) :
  Text.complete a = true -> is_failure a = false ->
  is_failure (a +:+ b) = is_failure b.
Proof.
  unfold is_failure. intros Ha Hclean.
  pose proof failure_patterns_plain as Hplain. rewrite forallb_forall in Hplain.
  induction failure_patterns as [|p ps IH]; [done|].
  simpl in *. apply orb_false_iff in Hclean as [Hp Hps].
  rewrite search_ci_complete, Hp by (done || (apply Hplain; by left)).
  simpl. f_equal. apply IH; [done|]. intros q Hq. apply Hplain. by right.
Qed.

Section World.
Variable world : nat -> attempt.
Variable strftime : Z -> string.

Lemma log_message_eq message s :
  log_message strftime message s = (Ok tt, logged strftime message s).
Proof. reflexivity. Qed.

Lemma stream_eq lines s : stream lines s = (Ok tt, streamed lines s).
Proof.
  revert s. induction lines as [|line rest IH]; intros s; [done|].
  simpl. unfold bind, shown. destruct (Text.is_empty line); simpl; apply IH.
Qed.

Lemma streamed_log lines s old :
  log_file s = Some old ->
  log_file (streamed lines s) = Some (old +:+ Text.joined lines).
Proof.
  revert s old. induction lines as [|line rest IH]; intros s old Hs.
  - simpl. by rewrite append_nil_r.
  - simpl. unfold shown. destruct (Text.is_empty line) eqn:E.
    + apply is_empty_true in E as ->. rewrite append_nil_l. by apply IH.
    + rewrite (IH _ (old +:+ line)); [by rewrite append_assoc|]. simpl. by rewrite Hs.
Qed.

Lemma streamed_clock lines s : clock (streamed lines s) = clock s.
Proof.
  revert s. induction lines as [|line rest IH]; intros s; [done|].
  simpl. rewrite IH. unfold shown. by destruct (Text.is_empty line).
Qed.

Lemma streamed_runs lines s : runs (streamed lines s) = runs s.
Proof.
  revert s. induction lines as [|line rest IH]; intros s; [done|].
  simpl. rewrite IH. unfold shown. by destruct (Text.is_empty line).
Qed.

Lemma ran_log transcript time s :
  log_file (ran transcript time s)
  = Some (default "" (log_file s) +:+ Text.joined transcript).
Proof.
  unfold ran. simpl. erewrite streamed_log by reflexivity. by rewrite append_nil_r.
Qed.

(** [run_scraper] in closed form, one line per way out of the function. *)
Lemma run_scraper_eq s :
  run_scraper world strftime s =
  match run (world (runs s)) with
  | NotSpawned e =>
      (Ok false, logged strftime ("Error running scraper: " +:+ str_of_exn e) (spawned s))
  | Ran transcript (Raise e) =>
      (Ok false, logged strftime ("Error running scraper: " +:+ str_of_exn e)
                   (ran transcript (run_time (world (runs s))) s))
  | Ran transcript (Ok return_code) =>
      let s1 := ran transcript (run_time (world (runs s))) s in
      if bool_decide (return_code <> 0)
         || is_failure (default "" (log_file s) +:+ Text.joined transcript)
      then (Ok false,
            logged strftime ("Scraper failed with return code " +:+ pretty return_code) s1)
      else (Ok true, logged strftime "Scraper completed successfully" s1)
  end.
Proof.
  unfold run_scraper, popen, log_open_append, log_append, elapse, log_read,
    try_except, bind, gets, modify.
  simpl.
  destruct (run (world (runs s))) as [e|transcript [code|e]]; simpl; [reflexivity| |].
  - rewrite stream_eq. unfold ran. simpl.
    erewrite streamed_log by reflexivity. simpl.
    rewrite append_nil_r, is_failure_universal.
    destruct (bool_decide (code <> 0) || is_failure _); reflexivity.
  - rewrite stream_eq. reflexivity.
Qed.

(** What [run_scraper] answers for a child that ran to its end: success
    needs exit status 0 and a log file, old contents included, without any
    failure signature. *)
Lemma run_scraper_verdict s transcript return_code :
  run (world (runs s)) = Ran transcript (Ok return_code) ->
  (run_scraper world strftime s).1
  = Ok (bool_decide (return_code = 0)
        && negb (is_failure (default "" (log_file s) +:+ Text.joined transcript))).
Proof.
  intros Hrun. rewrite run_scraper_eq, Hrun. cbv zeta.
  destruct (decide (return_code = 0)) as [->|Hne].
  - rewrite (bool_decide_eq_false_2 (0 <> 0)) by (intros H; by apply H).
    rewrite bool_decide_eq_true_2 by done. simpl.
    by destruct (is_failure _).
  - rewrite (bool_decide_eq_true_2 (return_code <> 0)) by done.
    by rewrite bool_decide_eq_false_2 by done.
Qed.

(** [run_scraper] always returns: nothing it does gets past its handler. *)
Lemma run_scraper_returns s :
  exists verdict : bool, (run_scraper world strftime s).1 = Ok verdict.
Proof.
  rewrite run_scraper_eq.
  destruct (run (world (runs s))) as [e|transcript [code|e]]; cbv zeta;
    [by exists false| |by exists false].
  destruct (_ || _); [by exists false|by exists true].
Qed.

(** A run judged successful exited with status 0 and printed no failure
    signature itself. *)
Lemma succeeded_run_is_clean s :
  (run_scraper world strftime s).1 = Ok true ->
  exists transcript,
    run (world (runs s)) = Ran transcript (Ok 0) /\
    is_failure (Text.joined transcript) = false.
Proof.
  rewrite run_scraper_eq.
  destruct (run (world (runs s))) as [e|transcript [code|e]]; cbv zeta;
    [done| |done].
  destruct (bool_decide (code <> 0)) eqn:Hcode; [done|].
  destruct (is_failure _) eqn:Hlog; [done|]. intros _.
  apply bool_decide_eq_false_1 in Hcode.
  exists transcript. split.
  - f_equal. f_equal. destruct (decide (code = 0)); [done|contradiction].
  - destruct (is_failure (Text.joined transcript)) eqn:Hnew; [|done].
    by rewrite is_failure_append_r in Hlog.
Qed.

(** X19 (verdict on a clean log). On a log of complete lines without
    signature, as [main] leaves it for the first attempt, the verdict is the
    one of this run alone: exit status 0 and no failure signature in what
    the child printed. *)
Lemma clean_log_verdict s transcript return_code :
  run (world (runs s)) = Ran transcript (Ok return_code) ->
  Text.complete (default "" (log_file s)) = true ->
  is_failure (default "" (log_file s)) = false ->
  (run_scraper world strftime s).1
  = Ok (bool_decide (return_code = 0) && negb (is_failure (Text.joined transcript))).
Proof.
  intros Hrun Hcomplete Hclean.
  by rewrite (run_scraper_verdict _ _ _ Hrun), is_failure_after_clean.
Qed.

(** A signature left in the log by anything earlier fails every later run. *)
Lemma stale_signature_fails s :
  is_failure (default "" (log_file s)) = true ->
  (run_scraper world strftime s).1 = Ok false.
Proof.
  intros Hstale. rewrite run_scraper_eq.
  destruct (run (world (runs s))) as [e|transcript [code|e]]; cbv zeta;
    [done| |done].
  rewrite is_failure_append_l by done. by rewrite orb_true_r.
Qed.

End World.

(** C2 at the input on which the code departs from it. The log file
    already holds a line of an earlier run with a failure signature; the
    child of this attempt prints one harmless line and exits with status 0;
    [run_scraper] answers [False]. *)
Theorem stale_signature_fails_clean_run (strftime : Z -> string) :
  let earlier :=
    "requests.exceptions.ConnectionError: Max retries exceeded" +:+ Text.newline in
  let transcript := ["Done Scraping Data!" +:+ Text.newline] in
  let world : nat -> attempt :=
    fun _ => {| run := Ran transcript (Ok 0); run_time := 0; sleep_over := 0 |} in
  is_failure (Text.joined transcript) = false /\
  (run_scraper world strftime (boot 0 (Some earlier))).1 = Ok false.
Proof.
  intros earlier transcript world. split; [vm_compute; reflexivity|].
  apply stale_signature_fails. vm_compute. reflexivity.
Qed.

(** The scenario of the specification: the child prints a line with
    "Connection reset by peer" and exits with status 0; the run is judged
    failed. *)
Example reset_by_peer_fails (strftime : Z -> string) :
  let world : nat -> attempt :=
    fun _ => {| run := Ran ["OSError: Connection reset by peer" +:+ Text.newline] (Ok 0);
                run_time := 0; sleep_over := 0 |} in
  (run_scraper world strftime (boot 0 (Some ""))).1 = Ok false.
Proof.
  intros world. rewrite (run_scraper_verdict world strftime _ _ 0 eq_refl).
  vm_compute. reflexivity.
Qed.

End Classifier.

(** * The circuit breaker *)

Module Breaker.
Import Supervisor Verdicts Classifier.

Section World.
Variable cfg : config.
Variable strftime : Z -> string.

Lemma counted_le_length now ts : counted cfg now ts <= Z.of_nat (length ts).
Proof. unfold counted. pose proof (length_filter (fun t => now - t <= window cfg) ts). lia. Qed.

Lemma check_failure_threshold_verdict ts s :
  (check_failure_threshold cfg strftime ts s).1
  = Ok (bool_decide (max_failures cfg <= counted cfg (clock s) ts)).
Proof.
  unfold check_failure_threshold.
  pose proof (counted_le_length (clock s) ts) as Hle.
  unfold counted, max_failures, window in *.
  destruct (FAILURE_THRESHOLD cfg) as [m w]. simpl in *.
  case_decide as Hlen.
  - simpl. rewrite bool_decide_eq_false_2; [done|lia].
  - unfold bind, datetime_now, gets. simpl.
    case_decide as Hcount; simpl.
    + rewrite bool_decide_eq_true_2; [done|lia].
    + rewrite bool_decide_eq_false_2; [done|lia].
Qed.

Lemma counted_recent now ts :
  Forall (fun t => t <= now) ts -> counted cfg now ts = recent (window cfg) now ts.
Proof.
  intros Hpast. unfold counted, recent. f_equal. f_equal.
  induction Hpast as [|t ts Ht _ IH]; [done|].
  rewrite !filter_cons, IH.
  destruct (decide (now - t <= window cfg)) as [Hin|Hout].
  - rewrite decide_True; [done|]. apply bool_decide_eq_true_2. lia.
  - rewrite decide_False; [done|].
    intros Hin. apply bool_decide_eq_true_1 in Hin. lia.
Qed.

Lemma recent_of_filter w now ts :
  recent w now (filter (fun t => in_window w now t = true) ts) = recent w now ts.
Proof.
  unfold recent. f_equal. f_equal.
  induction ts as [|t ts IH]; [done|].
  rewrite !filter_cons. destruct (decide (in_window w now t = true)) as [Hin|Hout].
  - rewrite filter_cons, decide_True by done. by rewrite IH.
  - exact IH.
Qed.

(** C3 (circuit breaker). For failures recorded up to the instant of
    evaluation, [check_failure_threshold] answers [True] exactly when at
    least [max_failures] of them lie in the window of [window_minutes]
    minutes that ends at that instant. With fewer than [max_failures]
    failures in all it answers [False], and failures older than the window
    do not count: leaving them out changes nothing. *)
Theorem breaker_trips_iff (failure_timestamps : list Z) (s : state) :
  Forall (fun t => t <= clock s) failure_timestamps ->
  ((check_failure_threshold cfg strftime failure_timestamps s).1 = Ok true <->
   max_failures cfg <= recent (window cfg) (clock s) failure_timestamps) /\
  ((check_failure_threshold cfg strftime failure_timestamps s).1 = Ok false <->
   recent (window cfg) (clock s) failure_timestamps < max_failures cfg) /\
  (Z.of_nat (length failure_timestamps) < max_failures cfg ->
   (check_failure_threshold cfg strftime failure_timestamps s).1 = Ok false) /\
  (check_failure_threshold cfg strftime
     (filter (fun t => in_window (window cfg) (clock s) t = true) failure_timestamps) s).1
  = (check_failure_threshold cfg strftime failure_timestamps s).1.
Proof.
  intros Hpast.
  assert (Forall (fun t => t <= clock s)
            (filter (fun t => in_window (window cfg) (clock s) t = true) failure_timestamps))
    as Hpast'.
  { apply Forall_forall. intros t Ht. apply list_elem_of_filter in Ht as [_ Ht].
    rewrite Forall_forall in Hpast. by apply Hpast. }
  rewrite !check_failure_threshold_verdict, !counted_recent, recent_of_filter by done.
  pose proof (counted_le_length (clock s) failure_timestamps) as Hle.
  rewrite counted_recent in Hle by done.
  repeat split.
  - intros [= H]. by apply bool_decide_eq_true_1 in H.
  - intros H. by rewrite bool_decide_eq_true_2.
  - intros [= H]. apply bool_decide_eq_false_1 in H. lia.
  - intros H. rewrite bool_decide_eq_false_2; [done|lia].
  - intros H. rewrite bool_decide_eq_false_2; [done|lia].
Qed.

End World.

Lemma breaker_trips_iff_witness :
  (check_failure_threshold two_in_ten (fun _ => "")
     [minutes 0; minutes 5] (at_instant (minutes 5))).1 = Ok true.
Proof.
  apply (proj1 (breaker_trips_iff two_in_ten (fun _ => "")
                  [minutes 0; minutes 5] (at_instant (minutes 5))
                  ltac:(repeat constructor; vm_compute; discriminate))).
  vm_compute. discriminate.
Defined.

Example failures_fifteen_minutes_apart (strftime : Z -> string) :
  (check_failure_threshold two_in_ten strftime
     [minutes 0; minutes 15] (at_instant (minutes 15))).1 = Ok false.
Proof. reflexivity. Qed.

Example failures_five_minutes_apart (strftime : Z -> string) :
  (check_failure_threshold two_in_ten strftime
     [minutes 0; minutes 5] (at_instant (minutes 5))).1 = Ok true.
Proof. reflexivity. Qed.

End Breaker.

(** * The restart loop *)

Module Restart.
Import Supervisor Verdicts Classifier Breaker.

Section World.
Variable cfg : config.
Variable world : nat -> attempt.
Variable strftime : Z -> string.

Lemma restart_loop_failed fuel restart_count ts s s1 :
  (restart_count < MAX_RESTARTS cfg)%nat ->
  run_scraper world strftime s = (Ok false, s1) ->
  restart_loop cfg world strftime (S fuel) restart_count ts s
  = after_failed_run cfg world strftime fuel restart_count ts s1.
Proof.
  intros Hlt Hrun. simpl. rewrite decide_True by done.
  unfold bind at 1. rewrite Hrun. reflexivity.
Qed.

Lemma check_failure_threshold_returns ts s :
  exists tripped : bool, (check_failure_threshold cfg strftime ts s).1 = Ok tripped.
Proof. rewrite check_failure_threshold_verdict. eauto. Qed.

(** The loop ends, with the exit status of its ending, when it is given a
    turn for every restart still allowed. *)
Lemma restart_loop_supervised fuel restart_count ts s :
  (MAX_RESTARTS cfg - restart_count <= fuel)%nat ->
  exists e verdicts s',
    restart_loop cfg world strftime fuel restart_count ts s
      = (Ok (Some (exit_status e)), s') /\
    supervised cfg world strftime restart_count ts s e verdicts s'.
Proof.
  revert restart_count ts s.
  induction fuel as [|fuel IH]; intros restart_count ts s Hfuel.
  - exists Exhausted, [], (logged strftime
      ("Maximum restart attempts (" +:+ pretty (MAX_RESTARTS cfg)
       +:+ ") reached, giving up") s).
    simpl. rewrite decide_False by lia. split; [reflexivity|].
    constructor. lia.
  - destruct (decide (restart_count < MAX_RESTARTS cfg)%nat) as [Hlt|Hge].
    2:{ exists Exhausted, [], (logged strftime
          ("Maximum restart attempts (" +:+ pretty (MAX_RESTARTS cfg)
           +:+ ") reached, giving up") s).
        simpl. rewrite decide_False by done. split; [reflexivity|].
        by constructor. }
    destruct (run_scraper_returns world strftime s) as [verdict Hv].
    destruct (run_scraper world strftime s) as [r s1] eqn:Hrun.
    simpl in Hv. subst r. destruct verdict.
    + exists Succeeded, [true],
        (logged strftime "Scraper completed successfully, exiting" s1).
      split; [|by constructor].
      simpl. rewrite decide_True by done. unfold bind at 1. rewrite Hrun.
      reflexivity.
    + rewrite (restart_loop_failed _ _ _ _ s1 Hlt Hrun).
      unfold after_failed_run, bind at 1, datetime_now, gets. unfold bind at 1.
      destruct (check_failure_threshold_returns
                  (deque_append 1000 ts (clock s1)) s1) as [tripped Ht].
      destruct (check_failure_threshold cfg strftime _ s1) as [r2 s2] eqn:Hcheck.
      simpl in Ht. subst r2. destruct tripped.
      * exists Tripped, [false],
          (logged strftime
             "Too many failures in a short time period. Stopping script." s2).
        split; [reflexivity|]. by econstructor.
      * destruct (IH (S restart_count) (deque_append 1000 ts (clock s1))
                    (restarting cfg world strftime restart_count s2) ltac:(lia))
          as (e & verdicts & s' & Hloop & Hsup).
        exists e, (false :: verdicts), s'. split; [|by econstructor].
        rewrite <- Hloop. reflexivity.
Qed.

(** What the verdicts say about the ending. *)
Lemma supervised_verdicts restart_count ts s e verdicts s' :
  supervised cfg world strftime restart_count ts s e verdicts s' ->
  (e = Succeeded <-> true ∈ verdicts) /\
  (length verdicts <= MAX_RESTARTS cfg - restart_count)%nat /\
  (e = Exhausted ->
   Forall (fun v => v = false) verdicts /\
   length verdicts = (MAX_RESTARTS cfg - restart_count)%nat).
Proof.
  induction 1 as [count ts s s1 Hlt Hrun
                 |count ts s s1 s2 Hlt Hrun Hcheck
                 |count ts s s1 s2 e verdicts s' Hlt Hrun Hcheck _ IH
                 |count ts s Hge].
  - split; [split; [intros _; by left|done]|]. split; [simpl; lia|done].
  - split; [split; [done|]|].
    + intros H. apply list_elem_of_singleton in H. done.
    + split; [simpl; lia|done].
  - destruct IH as (Hiff & Hlen & Hex). split; [|split].
    + rewrite Hiff. split; [intros H; by right|].
      intros H. apply elem_of_cons in H as [H|H]; [done|exact H].
    + simpl. lia.
    + intros He. destruct (Hex He) as [Hall Hl]. split; [by constructor|].
      simpl. lia.
  - split; [split; [done|]|].
    + intros H. by apply elem_of_nil in H.
    + split; [simpl; lia|]. intros _. split; [constructor|simpl; lia].
Qed.

(** C9 (exit status). [main] always ends, with the exit status of one of
    three endings. The status is 0 exactly when a run attempt was judged
    successful, which is then the last attempt made. It is 1 when the
    circuit breaker tripped on a failed attempt, and also when the restart
    counter reached [MAX_RESTARTS]: then [MAX_RESTARTS] attempts were made
    and every one of them was judged failed. *)
Theorem main_exit_status (s : state) :
  exists (e : ending) (verdicts : list bool) (s' : state),
    main cfg world strftime s = (Ok (Some (exit_status e)), s') /\
    supervised cfg world strftime 0 [] (started strftime s) e verdicts s' /\
    (exit_status e = 0 <-> true ∈ verdicts) /\
    (exit_status e = 1 <-> e = Tripped \/ e = Exhausted) /\
    (e = Exhausted ->
     Forall (fun v => v = false) verdicts /\ length verdicts = MAX_RESTARTS cfg).
Proof.
  destruct (restart_loop_supervised (MAX_RESTARTS cfg) 0 [] (started strftime s) ltac:(lia))
    as (e & verdicts & s' & Hloop & Hsup).
  exists e, verdicts, s'. split; [exact Hloop|]. split; [exact Hsup|].
  destruct (supervised_verdicts _ _ _ _ _ _ Hsup) as (Hiff & _ & Hex).
  split; [|split].
  - rewrite <- Hiff. by destruct e.
  - destruct e; simpl; split; try done; try (intros [?|?]; done); auto.
  - intros He. destruct (Hex He) as [Hall Hlen]. split; [done|]. lia.
Qed.

(** C10 (exceptions are failed runs). When starting the child raises, or
    reading its output does, [run_scraper] reports the error and answers
    [False]; the loop then goes on as after any failed run: the failure is
    recorded, the breaker is asked, and the restart is counted and waited
    for. *)
Theorem exception_is_failed_run (s : state) (e : exn) (fuel restart_count : nat)
    (failure_timestamps : list Z) :
  (run (world (runs s)) = NotSpawned e \/
   exists transcript, run (world (runs s)) = Ran transcript (Raise e)) ->
  (restart_count < MAX_RESTARTS cfg)%nat ->
  (run_scraper world strftime s).1 = Ok false /\
  restart_loop cfg world strftime (S fuel) restart_count failure_timestamps s
  = after_failed_run cfg world strftime fuel restart_count failure_timestamps
      (run_scraper world strftime s).2.
Proof.
  intros Hraised Hlt.
  assert ((run_scraper world strftime s).1 = Ok false) as Hfalse.
  { rewrite run_scraper_eq. by destruct Hraised as [-> | [transcript ->]]. }
  split; [exact Hfalse|].
  apply restart_loop_failed; [done|].
  destruct (run_scraper world strftime s) as [r s1]. simpl in *. by subst r.
Qed.

End World.

Lemma exception_is_failed_run_witness :
  (run_scraper no_child (fun _ => "") (boot 0 None)).1 = Ok false.
Proof.
  apply (proj1 (exception_is_failed_run two_in_ten no_child (fun _ => "")
                  (boot 0 None) (Exception "OSError" "[Errno 12] Cannot allocate memory")
                  0 0 [] ltac:(left; reflexivity) ltac:(vm_compute; lia))).
Defined.

Example budget_exhausted :
  (main patient failing_child (fun _ => "") (boot 0 None)).1 = Ok (Some 1) /\
  runs (main patient failing_child (fun _ => "") (boot 0 None)).2 = 3%nat.
Proof. vm_compute. split; reflexivity. Qed.

(** After one run that printed a failure signature no later run can be
    judged successful: the loop never ends with status 0. *)
Lemma poisoned_log_never_succeeds (cfg : config) (world : nat -> attempt)
    (strftime : Z -> string) restart_count ts s e verdicts s' :
  is_failure (default "" (log_file s)) = true ->
  supervised cfg world strftime restart_count ts s e verdicts s' ->
  e <> Succeeded.
Proof.
  intros Hstale Hsup. revert Hstale.
  induction Hsup as [count ts s s1 Hlt Hrun
                    |count ts s s1 s2 Hlt Hrun Hcheck
                    |count ts s s1 s2 e verdicts s' Hlt Hrun Hcheck _ IH
                    |count ts s Hge]; intros Hstale; try done.
  - pose proof (stale_signature_fails world strftime s Hstale) as H.
    rewrite Hrun in H. done.
  - apply IH. clear IH.
    assert (is_failure (default "" (log_file s1)) = true) as H1.
    { pose proof (run_scraper_eq world strftime s) as Heq. rewrite Hrun in Heq.
      destruct (run (world (runs s))) as [ex|transcript [code|ex]];
        cbv zeta in Heq.
      - injection Heq as ->. simpl. by apply is_failure_append_l.
      - rewrite is_failure_append_l, orb_true_r in Heq by done.
        injection Heq as ->. unfold logged. cbn [log_file]. rewrite ran_log.
        cbn [default from_option]. by do 2 apply is_failure_append_l.
      - injection Heq as ->. unfold logged. cbn [log_file]. rewrite ran_log.
        cbn [default from_option]. by do 2 apply is_failure_append_l. }
    assert (is_failure (default "" (log_file s2)) = true) as H2.
    { unfold check_failure_threshold in Hcheck.
      destruct (FAILURE_THRESHOLD cfg) as [m w].
      case_decide; [by injection Hcheck as <-|].
      unfold bind, datetime_now, gets in Hcheck. simpl in Hcheck.
      case_decide; [discriminate Hcheck|by injection Hcheck as <-]. }
    unfold restarting, bind, time_sleep, elapse, modify. simpl.
    by apply is_failure_append_l.
Qed.

End Restart.

(** * Where the artifacts go *)

Module Paths.
Import Scraper Outcomes Notions TextFacts.

Lemma length_append a b :
  String.length (a +:+ b) = (String.length a + String.length b)%nat.
Proof. induction a as [|c a IH]; [done|]. rewrite append_cons. simpl. by rewrite IH. Qed.

Lemma append_cancel_r a b s : a +:+ s = b +:+ s -> a = b.
Proof.
  revert b. induction a as [|c a IH]; intros b H.
  - destruct b as [|d b]; [done|].
    apply (f_equal String.length) in H. rewrite !length_append in H.
    simpl in H. lia.
  - destruct b as [|d b].
    + apply (f_equal String.length) in H. rewrite !length_append in H.
      simpl in H. lia.
    + rewrite !append_cons in H. injection H as -> H. f_equal. by apply IH.
Qed.

Lemma last_char_append a b : b <> "" -> last_char (a +:+ b) = last_char b.
Proof.
  intros Hb. induction a as [|c a IH]; [done|].
  rewrite append_cons. simpl.
  destruct (a +:+ b) eqn:E; [|exact IH].
  destruct a; [|discriminate]. by rewrite append_nil_l in E.
Qed.

(** [os.path.join] puts something, possibly nothing, in front of its second
    argument. *)
Lemma os_path_join_ends a b : exists front, Text.os_path_join a b = front +:+ b.
Proof.
  unfold Text.os_path_join.
  assert (exists front,
            (if Text.is_empty a || Text.ends_with_slash a then a +:+ b
             else a +:+ "/" +:+ b) = front +:+ b) as Hplain.
  { destruct (_ || _); [by exists a|]. exists (a +:+ "/"). by rewrite append_assoc. }
  destruct b as [|c b]; [exact Hplain|].
  destruct (Ascii.eqb_spec c "/"%char) as [->|Hc].
  - by exists "".
  - destruct c as [[] [] [] [] [] [] [] []]; try exact Hplain. done.
Qed.

Lemma mol_filepath_last nistid : last_char (mol_filepath nistid) = Some "l"%char.
Proof.
  unfold mol_filepath.
  destruct (os_path_join_ends MOL_PATH (nistid +:+ ".mol")) as [front ->].
  rewrite <- append_assoc. by rewrite last_char_append.
Qed.

Lemma jdx_filepath_last nistid stype :
  last_char (jdx_filepath nistid stype) = Some "x"%char.
Proof.
  unfold jdx_filepath.
  destruct (os_path_join_ends JDX_PATH (nistid +:+ "-" +:+ stype +:+ ".jdx"))
    as [front ->].
  rewrite <- !append_assoc. by rewrite last_char_append.
Qed.

Lemma filepath_last k nistid :
  last_char (filepath_of k nistid) = Some "l"%char \/
  last_char (filepath_of k nistid) = Some "x"%char.
Proof.
  destruct k as [stype|]; simpl;
    [right; apply jdx_filepath_last|left; apply mol_filepath_last].
Qed.

Lemma control_not_artifact path k nistid :
  control_path path -> filepath_of k nistid <> path.
Proof.
  intros [Hl Hx] <-. destruct (filepath_last k nistid); contradiction.
Qed.

(** Joining a directory name and a file name: an absolute file name stays
    as it is, any other goes into the directory. *)
Lemma os_path_join_cases a b :
  Text.is_empty a = false -> Text.ends_with_slash a = false ->
  (exists rest, b = String "/" rest /\ Text.os_path_join a b = b) \/
  ((forall rest, b <> String "/" rest) /\ Text.os_path_join a b = a +:+ "/" +:+ b).
Proof.
  intros Ha Hs. unfold Text.os_path_join. rewrite Ha, Hs. simpl.
  destruct b as [|c b]; [right; by split|].
  destruct (Ascii.eqb_spec c "/"%char) as [->|Hc]; [left; by exists b|].
  right. split; [by intros rest [= ? ?]|].
  destruct c as [[] [] [] [] [] [] [] []]; try reflexivity. done.
Qed.

Lemma os_path_join_inj a x y :
  Text.is_empty a = false -> Text.ends_with_slash a = false ->
  (forall rest, a <> String "/" rest) ->
  Text.os_path_join a x = Text.os_path_join a y -> x = y.
Proof.
  intros Ha Hs Hfirst.
  destruct (os_path_join_cases a x Ha Hs) as [(rx & Hx & ->)|[Hx ->]];
    destruct (os_path_join_cases a y Ha Hs) as [(ry & Hy & ->)|[Hy ->]].
  - done.
  - intros H. destruct a as [|c a]; [done|]. rewrite Hx, append_cons in H.
    injection H as <- _. by destruct (Hfirst a).
  - intros H. destruct a as [|c a]; [done|]. rewrite Hy, append_cons in H.
    injection H as -> _. by destruct (Hfirst a).
  - intros H. by do 2 apply String.app_inj in H.
Qed.

(** X1 (artifact paths). Two records never share a file: the path of the
    structure file determines the record, and so does the path of the
    spectrum file of a given type; a structure file is never a spectrum
    file; and no artifact is written over the work list or over a
    checkpoint file. *)
Theorem artifact_paths_apart (a b stype : string) (k : artifact) :
  (mol_filepath a = mol_filepath b -> a = b) /\
  (jdx_filepath a stype = jdx_filepath b stype -> a = b) /\
  mol_filepath a <> jdx_filepath b stype /\
  filepath_of k a <> "species.txt" /\
  filepath_of k a <> "done_formulae.txt" /\
  filepath_of k a <> "done_IDs.txt".
Proof.
  split; [|split; [|split]].
  - unfold mol_filepath. intros H.
    apply os_path_join_inj in H; [|done|done|by intros rest].
    by apply append_cancel_r in H.
  - unfold jdx_filepath. intros H.
    apply os_path_join_inj in H; [|done|done|by intros rest].
    by apply append_cancel_r in H.
  - intros H. apply (f_equal last_char) in H.
    by rewrite mol_filepath_last, jdx_filepath_last in H.
  - repeat split; apply control_not_artifact; by split.
Qed.

End Paths.

(** * More about fetching *)

Module FetchMore.
Import Scraper Outcomes Notions RateLimiter Fetch.

Section World.
Variable world : nat -> request -> reply.

(** X2 (a fetch touches its own file only). Whatever the endpoint answers,
    [get_jdx] and [get_mol] leave every file other than the one of their
    artifact as it is, and send at most one request. *)
Theorem fetch_touches_own_file (k : artifact) (nistid : string) (s : state) :
  (forall path, path <> filepath_of k nistid ->
     files (fetch world k nistid s).2 !! path = files s !! path) /\
  (requests_sent s <= requests_sent (fetch world k nistid s).2
   <= S (requests_sent s))%nat.
Proof.
  rewrite fetch_eq. unfold requests_sent. case_bool_decide; [by split; [|simpl; lia]|].
  destruct (outcome _) as [resp|e]; [case_decide|]; simpl;
    (split; [|lia]); intros path Hpath; try done.
  by rewrite lookup_insert_ne.
Qed.

(** X4 (a request that raises). When the artifact is not on disk and the
    request raises, the fetch raises the same exception: no file is written
    and no timestamp is recorded for the request, though it was sent. *)
Theorem failed_request_leaves_nothing (k : artifact) (nistid : string)
    (s : state) (e : exn) :
  files s !! filepath_of k nistid = None ->
  outcome (next_reply world s (request_of k nistid)) = Raise e ->
  (fetch world k nistid s).1 = Raise e /\
  files (fetch world k nistid s).2 = files s /\
  request_timestamps (fetch world k nistid s).2 = request_timestamps s /\
  requests_sent (fetch world k nistid s).2 = S (requests_sent s).
Proof.
  intros Hfile Hout. rewrite fetch_eq, bool_decide_eq_false_2.
  2:{ rewrite Hfile. by intros [? ?]. }
  rewrite Hout. unfold asked. simpl. rewrite Hout. done.
Qed.

Lemma keeps_request_sequence script : keeps (request_sequence world script).
Proof.
  induction script as [|r rest IH]; [apply keeps_ret|].
  simpl. apply keeps_bind; [apply keeps_rate_limited_request|]. intros _. exact IH.
Qed.

(** In a state the limiter itself has brought about, the oldest recorded
    timestamp is not in the future. *)
Lemma oldest_in_past s :
  consistent s -> length (request_timestamps s) = 5%nat ->
  default 0 (head (request_timestamps s)) <= clock s.
Proof.
  intros (Hts & Hclock & Hall & Hseq & _) H5. rewrite Hts in H5 |- *.
  apply deque_length in H5.
  destruct (net_log s) as [|c0 [|c1 [|c2 [|c3 [|c4 rest]]]]]; simpl in H5; try lia.
  pose proof (Hclock c0 eq_refl) as H0.
  pose proof (Hseq 0%nat c0 c1 eq_refl eq_refl) as H1.
  pose proof (Hseq 1%nat c1 c2 eq_refl eq_refl) as H2.
  pose proof (Hseq 2%nat c2 c3 eq_refl eq_refl) as H3.
  pose proof (Hseq 3%nat c3 c4 eq_refl eq_refl) as H4.
  repeat (apply Forall_cons in Hall as [? Hall]).
  change (finished c4 <= clock s). lia.
Qed.

(** X20 (how long the limiter holds a request back). In a state the
    limiter itself has brought about, a request is let out no sooner than
    it was asked for and no later than 30 seconds after that, plus whatever
    the sleep overran; with fewer than five timestamps recorded it is let
    out at once. *)
Theorem limiter_waits_at_most_30s (r : request) (s : state) :
  consistent s ->
  exists c : call,
    net_log (rate_limited_request world r s).2 = c :: net_log s /\
    called c = clock s + Z.of_N (idle (next_reply world s r)) /\
    called c <= issued c
      <= called c + seconds 30 + Z.of_N (overshoot (next_reply world s r)) /\
    ((length (request_timestamps s) < 5)%nat -> issued c = called c).
Proof.
  intros Hs. rewrite rate_limited_request_eq. unfold next_reply.
  eexists. split; [reflexivity|]. simpl. split; [done|].
  unfold issue_time, seconds.
  destruct (decide (length (request_timestamps s) = 5%nat)) as [H5|H5];
    [|split; [lia|done]].
  pose proof (oldest_in_past s Hs H5) as Hold.
  case_decide; (split; [lia|]); intros; lia.
Qed.

End World.

(** After five requests at instant 0 the sixth, asked for at once, is held
    back for 30 seconds. *)
Lemma limiter_waits_at_most_30s_witness :
  exists c : call,
    net_log (rate_limited_request instant_world ping five_done).2
      = c :: net_log five_done /\
    called c <= issued c <= called c + seconds 30 + 0.
Proof.
  destruct (limiter_waits_at_most_30s instant_world ping five_done)
    as (c & Hlog & _ & Hwait & _).
  - apply (keeps_request_sequence instant_world [ping; ping; ping; ping; ping]
             (fresh 0 ∅) (fresh_consistent 0 ∅)).
    vm_compute. reflexivity.
  - exists c. split; [exact Hlog|exact Hwait].
Defined.

(** X3 (fetching again). After a fetch that saved its artifact, a second
    fetch of the same artifact returns without sending anything, whatever
    the endpoint would answer. After a fetch that ended not found nothing is
    on disk, and a second fetch sends the request again. *)
Theorem fetch_again (world world' : nat -> request -> reply)
    (k : artifact) (nistid : string) (s : state) (resp : response) :
  files s !! filepath_of k nistid = None ->
  outcome (next_reply world s (request_of k nistid)) = Ok resp ->
  (text resp <> sentinel_of k ->
   (fetch world' k nistid (fetch world k nistid s).2).1 = Ok tt /\
   requests_sent (fetch world' k nistid (fetch world k nistid s).2).2
     = requests_sent (fetch world k nistid s).2 /\
   files (fetch world' k nistid (fetch world k nistid s).2).2
     = files (fetch world k nistid s).2) /\
  (text resp = sentinel_of k ->
   requests_sent (fetch world' k nistid (fetch world k nistid s).2).2
     = S (requests_sent (fetch world k nistid s).2)).
Proof.
  intros Hfile Hout.
  assert (~ is_Some (files s !! filepath_of k nistid)) as Hno.
  { rewrite Hfile. by intros [? ?]. }
  split; intros Htext.
  - rewrite (fetch_eq world), bool_decide_eq_false_2, Hout by done.
    rewrite decide_False by done. simpl.
    rewrite fetch_eq, bool_decide_eq_true_2; [done|].
    simpl. rewrite lookup_insert_eq. by eexists.
  - rewrite (fetch_eq world), bool_decide_eq_false_2, Hout by done.
    rewrite decide_True by done. simpl.
    rewrite fetch_eq, bool_decide_eq_false_2 by done.
    unfold requests_sent.
    destruct (outcome (next_reply world' _ _)) as [resp'|e'];
      [destruct (decide (text resp' = sentinel_of k))|]; reflexivity.
Qed.

(** An endpoint that is down. *)
Lemma failed_request_leaves_nothing_witness :
  (fetch (fun _ _ => {| idle := 0; overshoot := 0; latency := 0;
                        outcome := Raise (Exception "ConnectionError" "refused") |})
     Structure "C71432" (fresh 0 ∅)).1
  = Raise (Exception "ConnectionError" "refused").
Proof.
  apply (failed_request_leaves_nothing
           (fun _ _ => {| idle := 0; overshoot := 0; latency := 0;
                          outcome := Raise (Exception "ConnectionError" "refused") |})
           Structure "C71432" (fresh 0 ∅)
           (Exception "ConnectionError" "refused")); vm_compute; reflexivity.
Defined.

Lemma fetch_again_witness :
  requests_sent
    (fetch empty_world Structure "C71432"
       (fetch empty_world Structure "C71432" (fresh 0 ∅)).2).2
  = S (requests_sent (fetch empty_world Structure "C71432" (fresh 0 ∅)).2).
Proof.
  pose proof (fetch_again empty_world empty_world Structure "C71432" (fresh 0 ∅)
                {| text := MOL_NOT_FOUND; content := MOL_NOT_FOUND |}) as H.
  destruct H as [_ H]; [vm_compute; reflexivity|vm_compute; reflexivity|].
  apply H. reflexivity.
Defined.

(** X5 (the deque follows the requests). When the scraper ends normally, the
    deque holds the instants at which its most recent requests returned, at
    most five of them, oldest first. *)
Theorem deque_follows_requests (world : nat -> request -> reply)
    (extract_ids : string -> result (list string))
    (repr_list : list string -> string)
    (t0 : Z) (fs : gmap string string) :
  is_ok (get_all_IR world extract_ids repr_list (fresh t0 fs)).1 = true ->
  request_timestamps (get_all_IR world extract_ids repr_list (fresh t0 fs)).2
  = reverse (finished <$>
             take 5 (net_log (get_all_IR world extract_ids repr_list (fresh t0 fs)).2)) /\
  (length (request_timestamps
             (get_all_IR world extract_ids repr_list (fresh t0 fs)).2) <= 5)%nat.
Proof.
  intros Hok.
  destruct (keeps_get_all_IR world extract_ids repr_list (fresh t0 fs)
              (fresh_consistent t0 fs)) as [_ Hcons].
  destruct (Hcons Hok) as (Hts & _). split; [exact Hts|].
  rewrite Hts, length_reverse, length_fmap, length_take. lia.
Qed.

Lemma deque_follows_requests_witness :
  (length (request_timestamps
             (get_all_IR one_record_world (fun _ => Ok ["1"]) (fun _ => "['1']")
                (fresh 0 two_items)).2) <= 5)%nat.
Proof.
  pose proof (deque_follows_requests one_record_world (fun _ => Ok ["1"])
                (fun _ => "['1']") 0 two_items) as H.
  destruct H as [_ H]; [vm_compute; reflexivity|exact H].
Defined.

End FetchMore.

(** * Checkpoint files over a whole run *)

Module Resume.
Import Scraper Outcomes Notions TextFacts RateLimiter Fetch WorkQueue Checkpoint Paths.

Lemma leaves_bind {A B : Type} path v (m : M state A) (k : A -> M state B) :
  leaves path v m -> (forall a, leaves path v (k a)) -> leaves path v (bind m k).
Proof.
  intros Hm Hk s Hs. unfold bind. specialize (Hm s Hs).
  destruct (m s) as [[a|e] s1]; simpl in *; [|done].
  by apply Hk.
Qed.

Lemma leaves_ret {A : Type} path v (a : A) : leaves path v (ret a).
Proof. by intros s Hs. Qed.

Lemma leaves_raise {A : Type} path v (e : exn) : leaves path v (@raise state A e).
Proof. by intros s Hs. Qed.

Lemma leaves_print path v line : leaves path v (print line).
Proof. by intros s Hs. Qed.

Lemma leaves_read_text path v p : leaves path v (read_text p).
Proof.
  intros s Hs. unfold read_text, bind, gets. simpl. by destruct (files s !! p).
Qed.

Lemma leaves_for_each {A : Type} path v (l : list A) (body : A -> M state unit) :
  (forall x, leaves path v (body x)) -> leaves path v (for_each l body).
Proof.
  intros Hbody. induction l as [|x l IH]; [by intros s Hs|].
  simpl. apply leaves_bind; [apply Hbody|]. intros _. exact IH.
Qed.

Lemma leaves_append_text path v cp data :
  path <> cp -> leaves path v (append_text cp data).
Proof. intros Hne s Hs. simpl. by rewrite lookup_insert_ne. Qed.

Lemma for_each_cons {S A : Type} (x : A) (l : list A) (body : A -> M S unit) s :
  for_each (x :: l) body s = bind (body x) (fun _ => for_each l body) s.
Proof. reflexivity. Qed.

Lemma control_species : control_path "species.txt".
Proof. split; vm_compute; discriminate. Qed.

Lemma control_done_formulae : control_path "done_formulae.txt".
Proof. split; vm_compute; discriminate. Qed.

Lemma control_done_IDs : control_path "done_IDs.txt".
Proof. split; vm_compute; discriminate. Qed.

(** The set read from a checkpoint file of complete lines to which the
    lines of clean keys were appended. *)
Lemma done_set_marks old keys :
  Text.complete old = true ->
  Forall (fun key => Text.clean_key key = true) keys ->
  done_set (Text.universal_newlines (old +:+ marks keys))
  = done_set (Text.universal_newlines old) ∪ list_to_set keys.
Proof.
  intros Hold Hkeys. revert old Hold.
  induction Hkeys as [|key keys Hkey _ IH]; intros old Hold.
  - simpl. by rewrite append_nil_r, (right_id_L ∅ (∪)).
  - simpl. rewrite <- append_assoc, IH by apply complete_snoc.
    rewrite done_set_append by done. by rewrite <- (assoc_L (∪)).
Qed.

Lemma to_do_clean done keys :
  Forall (fun key => Text.clean_key key = true) keys ->
  Forall (fun key => Text.clean_key key = true) (to_do done keys).
Proof.
  intros H. apply Forall_forall. intros key Hkey.
  apply list_elem_of_filter in Hkey as [_ Hkey].
  rewrite Forall_forall in H. by apply H.
Qed.

Lemma to_do_covers done keys key :
  key ∈ keys -> key ∈ done ∪ list_to_set (to_do done keys).
Proof.
  intros Hkey. destruct (decide (key ∈ done)) as [Hin|Hin].
  - by apply elem_of_union_l.
  - apply elem_of_union_r, elem_of_list_to_set. unfold to_do.
    by apply list_elem_of_filter.
Qed.

Section World.
Variable world : nat -> request -> reply.
Variable extract_ids : string -> result (list string).
Variable repr_list : list string -> string.

Lemma leaves_rate_limited_request path v r :
  leaves path v (rate_limited_request world r).
Proof. intros s Hs. by rewrite rate_limited_request_eq. Qed.

Lemma leaves_fetch path v k nistid :
  settled path v -> leaves path v (fetch world k nistid).
Proof.
  intros Hsafe s Hs. rewrite fetch_eq. case_bool_decide as Hthere; [done|].
  assert (filepath_of k nistid <> path) as Hne.
  { destruct Hsafe as [Hc|Hv]; [by apply control_not_artifact|].
    intros <-. apply Hthere. by rewrite Hs. }
  destruct (outcome _) as [resp|e]; [case_decide|]; simpl; try done.
  by rewrite lookup_insert_ne.
Qed.

Lemma leaves_fetch_record path v nistid :
  settled path v -> leaves path v (fetch_record world nistid).
Proof.
  intros Hsafe. unfold fetch_record. apply leaves_bind.
  - apply (leaves_fetch path v Structure nistid Hsafe).
  - intros _. apply (leaves_fetch path v (Spectrum "IR") nistid Hsafe).
Qed.

Lemma leaves_retreive_data_from_formula path v formula :
  settled path v ->
  leaves path v (retreive_data_from_formula world extract_ids repr_list formula).
Proof.
  intros Hsafe. unfold retreive_data_from_formula, search_nist_formula.
  apply leaves_bind.
  - apply leaves_bind; [apply leaves_print|]. intros _.
    apply leaves_bind; [apply leaves_rate_limited_request|]. intros resp.
    destruct (extract_ids (text resp)); [|apply leaves_raise].
    apply leaves_bind; [apply leaves_print|]. intros _. apply leaves_ret.
  - intros ids. apply leaves_for_each. intros nistid.
    apply (leaves_fetch_record path v nistid Hsafe).
Qed.

Lemma id_loop_eq done IDs s :
  id_loop world done IDs s
  = for_each IDs (fun nistid =>
      if decide (nistid ∈ done) then ret tt
      else bind (fetch_record world nistid)
             (fun _ => append_text "done_IDs.txt" (nistid +:+ Text.newline))) s.
Proof.
  unfold id_loop. apply for_each_ext. intros nistid s'.
  case_decide; [done|]. unfold fetch_record. by rewrite bind_assoc.
Qed.

(** A loop that fetches and then appends grows its checkpoint file by the
    lines of the items it completed, in their order. *)
Lemma loop_marks cp (process : string -> M state unit) done items s old :
  (forall item v, leaves cp v (process item)) ->
  files s !! cp = Some old ->
  exists marked,
    marked `prefix_of` to_do done items /\
    (is_ok (for_each items (fun item =>
              if decide (item ∈ done) then ret tt
              else bind (process item)
                     (fun _ => append_text cp (item +:+ Text.newline))) s).1 = true ->
     marked = to_do done items) /\
    files (for_each items (fun item =>
             if decide (item ∈ done) then ret tt
             else bind (process item)
                    (fun _ => append_text cp (item +:+ Text.newline))) s).2 !! cp
    = Some (old +:+ marks marked).
Proof.
  intros Hproc. revert s old.
  induction items as [|item items IH]; intros s old Hold.
  - exists []. simpl. rewrite append_nil_r. by repeat split.
  - rewrite for_each_cons. cbv beta. unfold to_do. rewrite filter_cons.
    destruct (decide (item ∈ done)) as [Hin|Hin].
    + rewrite decide_False by (intros H; by apply H).
      erewrite bind_eq by reflexivity. by apply IH.
    + rewrite decide_True by done.
      pose proof (Hproc item (Some old) s Hold) as Hleave.
      destruct (process item s) as [[[]|e] s1] eqn:Hrun; simpl in Hleave.
      * erewrite bind_eq by (erewrite bind_eq by exact Hrun; reflexivity).
        destruct (IH
          {| clock := clock s1; request_timestamps := request_timestamps s1;
             files := <[cp := default "" (files s1 !! cp) +:+ item +:+ Text.newline]>
                        (files s1);
             net_log := net_log s1;
             trace := trace s1 ++ [EvAppend cp (item +:+ Text.newline)] |}
          (old +:+ item +:+ Text.newline))
          as (marked & Hpre & Hall & Hfile).
        { simpl. by rewrite lookup_insert_eq, Hleave. }
        exists (item :: marked). split; [by apply prefix_cons|].
        split; [intros Hok; f_equal; by apply Hall|].
        rewrite Hfile. simpl. by rewrite !append_assoc.
      * erewrite bind_raise by (apply bind_raise, Hrun).
        exists []. split; [apply prefix_nil|]. split; [done|].
        simpl. by rewrite Hleave, append_nil_r.
Qed.

Lemma leaves_formula_loop path v done formulae :
  settled path v -> path <> "done_formulae.txt" ->
  leaves path v (formula_loop world extract_ids repr_list done formulae).
Proof.
  intros Hsafe Hne. apply leaves_for_each. intros formula.
  case_decide; [apply leaves_ret|].
  apply leaves_bind; [by apply leaves_retreive_data_from_formula|].
  intros _. by apply leaves_append_text.
Qed.

Lemma leaves_id_loop path v done IDs :
  settled path v -> path <> "done_IDs.txt" ->
  leaves path v (id_loop world done IDs).
Proof.
  intros Hsafe Hne. apply leaves_for_each. intros nistid.
  case_decide; [apply leaves_ret|].
  apply leaves_bind; [by apply (leaves_fetch path v Structure)|]. intros _.
  apply leaves_bind; [by apply (leaves_fetch path v (Spectrum "IR"))|]. intros _.
  by apply leaves_append_text.
Qed.

Lemma formula_loop_marks done formulae s old :
  files s !! "done_formulae.txt" = Some old ->
  exists marked,
    marked `prefix_of` to_do done formulae /\
    (is_ok (formula_loop world extract_ids repr_list done formulae s).1 = true ->
     marked = to_do done formulae) /\
    files (formula_loop world extract_ids repr_list done formulae s).2
      !! "done_formulae.txt" = Some (old +:+ marks marked).
Proof.
  intros Hold. unfold formula_loop.
  apply (loop_marks "done_formulae.txt"
           (retreive_data_from_formula world extract_ids repr_list)); [|done].
  intros item v. apply leaves_retreive_data_from_formula.
  left. apply control_done_formulae.
Qed.

Lemma id_loop_marks done IDs s old :
  files s !! "done_IDs.txt" = Some old ->
  exists marked,
    marked `prefix_of` to_do done IDs /\
    (is_ok (id_loop world done IDs s).1 = true -> marked = to_do done IDs) /\
    files (id_loop world done IDs s).2 !! "done_IDs.txt"
    = Some (old +:+ marks marked).
Proof.
  intros Hold. rewrite id_loop_eq.
  apply (loop_marks "done_IDs.txt" (fetch_record world)); [|done].
  intros item v. apply leaves_fetch_record. left. apply control_done_IDs.
Qed.

Lemma leaves_get_all_IR path v :
  settled path v -> path <> "done_formulae.txt" -> path <> "done_IDs.txt" ->
  leaves path v (get_all_IR world extract_ids repr_list).
Proof.
  intros Hsafe Hf Hi. unfold get_all_IR, os_makedirs.
  apply leaves_bind; [apply leaves_ret|]. intros _.
  apply leaves_bind; [apply leaves_ret|]. intros _.
  apply leaves_bind; [apply leaves_read_text|]. intros data.
  destruct (enumerate (Text.lines data)) as [formulae IDs].
  apply leaves_bind; [apply leaves_print|]. intros _.
  apply leaves_bind; [apply leaves_read_text|]. intros done_f.
  apply leaves_bind; [by apply leaves_formula_loop|]. intros _.
  apply leaves_bind; [apply leaves_print|]. intros _.
  apply leaves_bind; [apply leaves_print|]. intros _.
  apply leaves_bind; [apply leaves_read_text|]. intros done_i.
  apply leaves_bind; [by apply leaves_id_loop|]. intros _.
  apply leaves_print.
Qed.

(** [get_all_IR] from the point where its three control files have been
    found: what it has appended to the two checkpoint files when it ends. *)
Lemma get_all_IR_marks s species done_f done_i formulae IDs :
  files s !! "species.txt" = Some species ->
  files s !! "done_formulae.txt" = Some done_f ->
  files s !! "done_IDs.txt" = Some done_i ->
  enumerate (Text.lines (Text.universal_newlines species)) = (formulae, IDs) ->
  exists marked_f marked_i,
    marked_f `prefix_of` to_do (done_set (Text.universal_newlines done_f)) formulae /\
    marked_i `prefix_of` to_do (done_set (Text.universal_newlines done_i)) IDs /\
    (is_ok (get_all_IR world extract_ids repr_list s).1 = true ->
     marked_f = to_do (done_set (Text.universal_newlines done_f)) formulae /\
     marked_i = to_do (done_set (Text.universal_newlines done_i)) IDs) /\
    (marked_i <> [] ->
     marked_f = to_do (done_set (Text.universal_newlines done_f)) formulae) /\
    files (get_all_IR world extract_ids repr_list s).2 !! "done_formulae.txt"
    = Some (done_f +:+ marks marked_f) /\
    files (get_all_IR world extract_ids repr_list s).2 !! "done_IDs.txt"
    = Some (done_i +:+ marks marked_i).
Proof.
  intros Hsp Hdf Hdi Henum.
  unfold get_all_IR.
  do 2 (erewrite bind_eq by reflexivity).
  erewrite bind_eq by by apply read_text_present.
  cbv beta. rewrite Henum. cbv beta iota.
  erewrite bind_eq by reflexivity.
  erewrite bind_eq by by apply read_text_present.
  match goal with
  | |- context [bind (formula_loop _ _ _ ?d ?f) _ ?s1] =>
      destruct (formula_loop_marks d f s1 done_f Hdf) as (mf & Hpf & Haf & Hff);
      pose proof (leaves_formula_loop "done_IDs.txt" (Some done_i) d f
                    (or_introl control_done_IDs) ltac:(done) s1 Hdi) as Hkeep;
      destruct (formula_loop world extract_ids repr_list d f s1)
        as [[[]|e] s2] eqn:Hloop
  end; simpl in Haf, Hff, Hkeep.
  - erewrite bind_eq by exact Hloop.
    do 2 (erewrite bind_eq by reflexivity).
    erewrite bind_eq by (apply read_text_present; exact Hkeep).
    match goal with
    | |- context [bind (id_loop _ ?d ?i) _ ?s3] =>
        destruct (id_loop_marks d i s3 done_i Hkeep) as (mi & Hpi & Hai & Hfi);
        pose proof (leaves_id_loop "done_formulae.txt" (Some (done_f +:+ marks mf)) d i
                      (or_introl control_done_formulae) ltac:(done) s3 Hff) as Hkeep';
        destruct (id_loop world d i s3) as [[[]|e] s4] eqn:Hloop'
    end; simpl in Hai, Hfi, Hkeep'.
    + erewrite bind_eq by exact Hloop'.
      exists mf, mi. simpl. repeat split; auto.
    + erewrite bind_raise by exact Hloop'.
      exists mf, mi. simpl. repeat split; auto; done.
  - erewrite bind_raise by exact Hloop.
    exists mf, []. simpl. rewrite append_nil_r.
    repeat split; auto; try done. apply prefix_nil.
Qed.

(** X6 (checkpoint files only grow). A run that finds its three control
    files leaves [species.txt] as it is and appends to each checkpoint file
    one line per item it completed: the items of the work list that were not
    in the set read at startup, in their order, up to the point where the
    run stopped; a raw ID is marked only when every formula has been. When
    the run ends normally every such item is marked. *)
Theorem checkpoints_only_grow (s : state) (species done_f done_i : string) :
  files s !! "species.txt" = Some species ->
  files s !! "done_formulae.txt" = Some done_f ->
  files s !! "done_IDs.txt" = Some done_i ->
  let work := enumerate (Text.lines (Text.universal_newlines species)) in
  let todo_f := to_do (done_set (Text.universal_newlines done_f)) work.1 in
  let todo_i := to_do (done_set (Text.universal_newlines done_i)) work.2 in
  let r := get_all_IR world extract_ids repr_list s in
  exists marked_f marked_i,
    marked_f `prefix_of` todo_f /\ marked_i `prefix_of` todo_i /\
    (marked_i <> [] -> marked_f = todo_f) /\
    (is_ok r.1 = true -> marked_f = todo_f /\ marked_i = todo_i) /\
    files r.2 !! "species.txt" = Some species /\
    files r.2 !! "done_formulae.txt" = Some (done_f +:+ marks marked_f) /\
    files r.2 !! "done_IDs.txt" = Some (done_i +:+ marks marked_i).
Proof.
  intros Hsp Hdf Hdi work todo_f todo_i r. subst todo_f todo_i r work.
  destruct (enumerate _) as [formulae IDs] eqn:Henum.
  destruct (get_all_IR_marks s species done_f done_i formulae IDs Hsp Hdf Hdi Henum)
    as (mf & mi & Hpf & Hpi & Hok & Hord & Hff & Hfi).
  exists mf, mi. repeat split; try done; try (by apply Hok).
  apply (leaves_get_all_IR "species.txt" (Some species)); try done.
  left. apply control_species.
Qed.


(** X8 (a missing control file). Without [species.txt] or without
    [done_formulae.txt] the run raises [FileNotFoundError] before any request
    is sent or any file written. Without [done_IDs.txt] the run never ends
    normally either, and the file is not created: the formulas are worked on
    first. *)
Theorem missing_control_file_stops (s : state) :
  (files s !! "species.txt" = None ->
   (get_all_IR world extract_ids repr_list s).1
     = Raise (FileNotFoundError "species.txt") /\
   net_log (get_all_IR world extract_ids repr_list s).2 = net_log s /\
   files (get_all_IR world extract_ids repr_list s).2 = files s) /\
  (is_Some (files s !! "species.txt") ->
   files s !! "done_formulae.txt" = None ->
   (get_all_IR world extract_ids repr_list s).1
     = Raise (FileNotFoundError "done_formulae.txt") /\
   net_log (get_all_IR world extract_ids repr_list s).2 = net_log s /\
   files (get_all_IR world extract_ids repr_list s).2 = files s) /\
  (files s !! "done_IDs.txt" = None ->
   is_ok (get_all_IR world extract_ids repr_list s).1 = false /\
   files (get_all_IR world extract_ids repr_list s).2 !! "done_IDs.txt" = None).
Proof.
  assert (forall path, files s !! path = None ->
          read_text path s = (Raise (FileNotFoundError path), s)) as Hmissing.
  { intros path H. unfold read_text, bind, gets. by rewrite H. }
  split; [|split].
  - intros Hsp. unfold get_all_IR.
    do 2 (erewrite bind_eq by reflexivity).
    erewrite bind_raise by by apply Hmissing. done.
  - intros [species Hsp] Hdf. unfold get_all_IR.
    do 2 (erewrite bind_eq by reflexivity).
    erewrite bind_eq by by apply read_text_present.
    cbv beta. destruct (enumerate _) as [formulae IDs]. cbv beta iota.
    erewrite bind_eq by reflexivity.
    erewrite bind_raise.
    2:{ unfold read_text, bind, gets. simpl. by rewrite Hdf. }
    done.
  - intros Hdi.
    destruct (files s !! "species.txt") as [species|] eqn:Hsp.
    2:{ unfold get_all_IR.
        do 2 (erewrite bind_eq by reflexivity).
        erewrite bind_raise by by apply Hmissing. done. }
    unfold get_all_IR.
    do 2 (erewrite bind_eq by reflexivity).
    erewrite bind_eq by by apply read_text_present.
    cbv beta. destruct (enumerate _) as [formulae IDs]. cbv beta iota.
    erewrite bind_eq by reflexivity.
    destruct (files s !! "done_formulae.txt") as [done_f|] eqn:Hdf.
    2:{ erewrite bind_raise.
        2:{ unfold read_text, bind, gets. simpl. by rewrite Hdf. }
        done. }
    erewrite bind_eq by by apply read_text_present.
    match goal with
    | |- context [bind (formula_loop _ _ _ ?d ?f) _ ?s1] =>
        pose proof (leaves_formula_loop "done_IDs.txt" None d f
                      (or_introl control_done_IDs) ltac:(done) s1 Hdi) as Hkeep;
        destruct (formula_loop world extract_ids repr_list d f s1)
          as [[[]|e] s2] eqn:Hloop
    end; simpl in Hkeep.
    + erewrite bind_eq by exact Hloop.
      do 2 (erewrite bind_eq by reflexivity).
      erewrite bind_raise.
      2:{ unfold read_text, bind, gets. simpl. by rewrite Hkeep. }
      done.
    + erewrite bind_raise by exact Hloop. done.
Qed.

(** X9 (a finished run stays finished). After a run that ended normally
    on checkpoint files made of complete lines, a later run on the files it
    left, whatever the endpoint would answer then, ends normally without
    sending a request or changing a file. *)
Theorem finished_run_is_final (s s1 s2 : state) (species done_f done_i : string)
    (world' : nat -> request -> reply)
    (extract_ids' : string -> result (list string))
    (repr_list' : list string -> string) :
  files s !! "species.txt" = Some species ->
  files s !! "done_formulae.txt" = Some done_f ->
  files s !! "done_IDs.txt" = Some done_i ->
  Text.complete done_f = true ->
  Text.complete done_i = true ->
  get_all_IR world extract_ids repr_list s = (Ok tt, s1) ->
  files s2 = files s1 ->
  (get_all_IR world' extract_ids' repr_list' s2).1 = Ok tt /\
  net_log (get_all_IR world' extract_ids' repr_list' s2).2 = net_log s2 /\
  files (get_all_IR world' extract_ids' repr_list' s2).2 = files s2.
Proof.
  intros Hsp Hdf Hdi Hcf Hci Hrun Hfiles.
  destruct (enumerate (Text.lines (Text.universal_newlines species)))
    as [formulae IDs] eqn:Henum.
  destruct (get_all_IR_marks s species done_f done_i formulae IDs Hsp Hdf Hdi Henum)
    as (mf & mi & _ & _ & Hok & _ & Hff & Hfi).
  pose proof (leaves_get_all_IR "species.txt" (Some species)
                (or_introl control_species) ltac:(done) ltac:(done) s Hsp) as Hsp1.
  rewrite Hrun in Hok, Hff, Hfi, Hsp1. simpl in Hok, Hff, Hfi, Hsp1.
  destruct (Hok eq_refl) as [-> ->]. clear Hok.
  rewrite <- Hfiles in Hff, Hfi, Hsp1.
  destruct (enumerate_clean species (Text.lines (Text.universal_newlines species))
              ltac:(auto)) as [Hclean_f Hclean_i].
  rewrite Henum in Hclean_f, Hclean_i. simpl in Hclean_f, Hclean_i.
  assert (forall f, f ∈ formulae ->
            f ∈ done_set (Text.universal_newlines
                            (done_f +:+ marks (to_do (done_set
                               (Text.universal_newlines done_f)) formulae)))) as Hall_f.
  { intros f Hf. rewrite done_set_marks by (done || by apply to_do_clean).
    by apply to_do_covers. }
  assert (forall i, i ∈ IDs ->
            i ∈ done_set (Text.universal_newlines
                            (done_i +:+ marks (to_do (done_set
                               (Text.universal_newlines done_i)) IDs)))) as Hall_i.
  { intros i Hi. rewrite done_set_marks by (done || by apply to_do_clean).
    by apply to_do_covers. }
  unfold get_all_IR, formula_loop, id_loop.
  do 2 (erewrite bind_eq by reflexivity).
  erewrite bind_eq by by apply read_text_present.
  cbv beta. rewrite Henum. cbv beta iota.
  erewrite bind_eq by reflexivity.
  erewrite bind_eq by by apply read_text_present.
  erewrite bind_eq by by apply for_each_all_done.
  do 2 (erewrite bind_eq by reflexivity).
  erewrite bind_eq by by apply read_text_present.
  erewrite bind_eq by by apply for_each_all_done.
  done.
Qed.

(** X10 (the work list). The formulas of the work list are the last but
    one words of the lines of [species.txt] that have two words or more, and
    the raw IDs are the other lines, stripped, each list in the order of the
    file; no key of either list has a line end in it or white space at its
    ends, so that the line written for it to a checkpoint file reads back as
    the same key. *)
Theorem work_list_of_lines (text : string) :
  let entries := Text.lines (Text.universal_newlines text) in
  (enumerate entries).1 = omap formula_of entries /\
  (enumerate entries).2
  = Text.strip <$> filter (fun entry => formula_of entry = None) entries /\
  Forall (fun key => Text.clean_key key = true /\
                     done_set (key +:+ Text.newline) = {[ key ]})
    ((enumerate entries).1 ++ (enumerate entries).2).
Proof.
  intros entries.
  assert (forall l, (enumerate l).1 = omap formula_of l /\
            (enumerate l).2
            = Text.strip <$> filter (fun entry => formula_of entry = None) l) as Hshape.
  { induction l as [|entry l [IH1 IH2]]; [done|].
    cbn [enumerate]. rewrite filter_cons.
    destruct (enumerate l) as [formulae IDs]. cbn [fst snd] in IH1, IH2.
    change (Text.from_end (Text.split entry) 2) with (formula_of entry).
    destruct (formula_of entry) as [formula|] eqn:E.
    - rewrite decide_False by done. cbn. by rewrite E, IH1.
    - rewrite decide_True by done. cbn. by rewrite E, IH2. }
  destruct (Hshape entries) as [H1 H2]. split; [done|]. split; [done|].
  destruct (enumerate_clean text entries ltac:(auto)) as [Hf Hi].
  assert (forall key, Text.clean_key key = true ->
            done_set (key +:+ Text.newline) = {[ key ]}) as Hback.
  { intros key Hkey. unfold Text.clean_key in Hkey.
    apply andb_true_iff in Hkey as [Hkey _].
    apply andb_true_iff in Hkey as [Hstrip Hlf].
    apply String.eqb_eq in Hstrip. apply negb_true_iff in Hlf.
    unfold done_set. rewrite lines_single by done. simpl.
    by rewrite strip_newline, Hstrip, (right_id_L ∅ (∪)). }
  apply Forall_app. split; (eapply Forall_impl; [eassumption|]);
    intros key Hkey; (split; [done|by apply Hback]).
Qed.

(** X11 (the whole run keeps the quota). Over a whole run of the
    scraper, however it ends, take for each request any instant between the
    moment it was let out and the moment its answer came back, for instance
    the moment it reached the server: at no time do more than five of these
    instants fall into the 30 seconds just past. *)
Theorem scraper_rate_limited (t0 : Z) (fs : gmap string string)
    (at_ : call -> Z) (t : Z) :
  (forall c, c ∈ net_log (get_all_IR world extract_ids repr_list (fresh t0 fs)).2 ->
     issued c <= at_ c <= finished c) ->
  (window_count (seconds 30) t
     (at_ <$> net_log (get_all_IR world extract_ids repr_list (fresh t0 fs)).2)
   <= 5)%nat.
Proof.
  intros Hat.
  destruct (keeps_get_all_IR world extract_ids repr_list (fresh t0 fs)
              (fresh_consistent t0 fs)) as [Hch _].
  apply spaced_window_count; [lia|]. by apply chained_spaced.
Qed.

End World.

(** The run of the scenario leaves the work list alone. *)
Lemma checkpoints_only_grow_witness :
  exists marked_f marked_i : list string,
    files (get_all_IR one_record_world (fun _ => Ok ["1"]) (fun _ => "['1']")
             (fresh 0 two_items)).2 !! "done_formulae.txt"
    = Some ("" +:+ marks marked_f) /\
    files (get_all_IR one_record_world (fun _ => Ok ["1"]) (fun _ => "['1']")
             (fresh 0 two_items)).2 !! "done_IDs.txt"
    = Some ("" +:+ marks marked_i).
Proof.
  pose proof (checkpoints_only_grow one_record_world (fun _ => Ok ["1"])
                (fun _ => "['1']") (fresh 0 two_items)
                ("H2O 18.02" +:+ Text.newline +:+ "NOTFOUNDID" +:+ Text.newline)
                "" "") as H.
  destruct H as (mf & mi & _ & _ & _ & _ & _ & Hf & Hi);
    [vm_compute; reflexivity|vm_compute; reflexivity|vm_compute; reflexivity|].
  exists mf, mi. split; [exact Hf|exact Hi].
Defined.


(** The run of the scenario, and then a run against an endpoint that is
    down. *)
Lemma finished_run_is_final_witness :
  (get_all_IR
     (fun _ _ => {| idle := 0; overshoot := 0; latency := 0;
                    outcome := Raise (Exception "ConnectionError" "refused") |})
     (fun _ => Ok []) (fun _ => "[]")
     (fresh 0 (files (get_all_IR one_record_world (fun _ => Ok ["1"])
                        (fun _ => "['1']") (fresh 0 two_items)).2))).1
  = Ok tt.
Proof.
  apply (finished_run_is_final one_record_world (fun _ => Ok ["1"]) (fun _ => "['1']")
           (fresh 0 two_items)
           (get_all_IR one_record_world (fun _ => Ok ["1"]) (fun _ => "['1']")
              (fresh 0 two_items)).2
           (fresh 0 (files (get_all_IR one_record_world (fun _ => Ok ["1"])
                              (fun _ => "['1']") (fresh 0 two_items)).2))
           ("H2O 18.02" +:+ Text.newline +:+ "NOTFOUNDID" +:+ Text.newline)
           "" "");
    vm_compute; reflexivity.
Defined.

Lemma scraper_rate_limited_witness :
  (window_count (seconds 30) (seconds 30)
     (finished <$> net_log (get_all_IR one_record_world (fun _ => Ok ["1"])
                              (fun _ => "['1']") (fresh 0 two_items)).2)
   <= 5)%nat.
Proof.
  apply (scraper_rate_limited one_record_world (fun _ => Ok ["1"]) (fun _ => "['1']")
           0 two_items finished (seconds 30)).
  intros c Hc.
  destruct (keeps_get_all_IR one_record_world (fun _ => Ok ["1"]) (fun _ => "['1']")
              (fresh 0 two_items) (fresh_consistent 0 two_items)) as [(Hall & _) _].
  rewrite Forall_forall in Hall. specialize (Hall c Hc). lia.
Defined.

End Resume.

(** * The supervisor over a whole session *)

Module Session.
Import Supervisor Verdicts Course TextFacts Classifier Breaker Restart.

Lemma grows_refl s : grows s s.
Proof. exists "". by rewrite append_nil_r. Qed.

Lemma grows_trans s1 s2 s3 : grows s1 s2 -> grows s2 s3 -> grows s1 s3.
Proof.
  intros [a Ha] [b Hb]. exists (a +:+ b). by rewrite Hb, Ha, append_assoc.
Qed.

Lemma starts_with_ci_fold (f : ascii -> ascii) p s :
  (forall c, Text.lower (f c) = Text.lower c) ->
  Text.starts_with_ci p (Notions.map_text f s) = Text.starts_with_ci p s.
Proof.
  intros Hf. revert s. induction p as [|a p IH]; intros s; [done|].
  destruct s as [|b s]; [done|]. simpl. by rewrite Hf, IH.
Qed.

Lemma search_ci_fold (f : ascii -> ascii) p s :
  (forall c, Text.lower (f c) = Text.lower c) ->
  Text.search_ci p (Notions.map_text f s) = Text.search_ci p s.
Proof.
  intros Hf. induction s as [|b s IH].
  - simpl. by destruct p.
  - change (Notions.map_text f (String b s))
      with (String (f b) (Notions.map_text f s)).
    rewrite !search_ci_cons, IH. f_equal.
    apply (starts_with_ci_fold f p (String b s) Hf).
Qed.

(** X12 (letter case). [is_failure] finds the same in a log whatever the
    case of its ASCII letters: turning the whole text to upper case or to
    lower case changes nothing. *)
Theorem is_failure_ignores_case (log_content : string) :
  is_failure (Notions.map_text Notions.upper log_content) = is_failure log_content /\
  is_failure (Notions.map_text Text.lower log_content) = is_failure log_content.
Proof.
  unfold is_failure. split; apply existsb_ext; intros p _; apply search_ci_fold;
    intros c; destruct c as [[] [] [] [] [] [] [] []]; reflexivity.
Qed.

Section World.
Variable cfg : config.
Variable world : nat -> attempt.
Variable strftime : Z -> string.

Lemma ran_runs transcript time s : runs (ran transcript time s) = S (runs s).
Proof. unfold ran. simpl. by rewrite streamed_runs. Qed.

Lemma ran_clock transcript time s :
  clock (ran transcript time s) = clock s + Z.of_N time.
Proof. unfold ran. simpl. by rewrite streamed_clock. Qed.

(** What a run attempt leaves behind, whatever its verdict: one more child
    was started, the clock has not gone back, and the log file holds what it
    held, then what the child printed, then the line of the verdict. *)
Lemma run_scraper_after s :
  runs (run_scraper world strftime s).2 = S (runs s) /\
  clock s <= clock (run_scraper world strftime s).2 /\
  grows s (run_scraper world strftime s).2 /\
  (forall transcript ending, run (world (runs s)) = Ran transcript ending ->
     exists rest,
       default "" (log_file (run_scraper world strftime s).2)
       = (default "" (log_file s) +:+ Text.joined transcript) +:+ rest).
Proof.
  rewrite run_scraper_eq.
  destruct (run (world (runs s))) as [e|transcript [code|e]]; cbv zeta.
  - simpl. split; [done|]. split; [lia|].
    split; [eexists; simpl; reflexivity|]. by intros.
  - assert (forall m, let s' := logged strftime m
                                  (ran transcript (run_time (world (runs s))) s) in
              runs s' = S (runs s) /\ clock s <= clock s' /\ grows s s' /\
              exists rest, default "" (log_file s')
                = (default "" (log_file s) +:+ Text.joined transcript) +:+ rest) as H.
    { intros m s'. subst s'. unfold logged. cbn [runs clock log_file].
      rewrite ran_runs, ran_clock, ran_log. cbn [default from_option].
      split; [done|]. split; [lia|]. split; [|by eexists].
      eexists. simpl. by rewrite append_assoc. }
    destruct (_ || _); cbn [fst snd].
    all: match goal with
         | |- context [logged strftime ?m _] =>
             destruct (H m) as (H1 & H2 & H3 & rest & H4)
         end;
      (split; [done|]); (split; [done|]); (split; [done|]);
      intros t en [= <- _]; by exists rest.
  - unfold logged. cbn [fst snd runs clock log_file].
    rewrite ran_runs, ran_clock, ran_log. cbn [default from_option].
    split; [done|]. split; [lia|]. split.
    + eexists. simpl. by rewrite append_assoc.
    + intros t en [= <- _]. by eexists.
Qed.

Lemma check_failure_threshold_after ts s :
  runs (check_failure_threshold cfg strftime ts s).2 = runs s /\
  clock (check_failure_threshold cfg strftime ts s).2 = clock s /\
  grows s (check_failure_threshold cfg strftime ts s).2.
Proof.
  unfold check_failure_threshold. destruct (FAILURE_THRESHOLD cfg) as [m w].
  case_decide; [simpl; repeat split; apply grows_refl|].
  unfold bind, datetime_now, gets. simpl.
  case_decide; simpl; repeat split; try apply grows_refl.
  eexists. simpl. reflexivity.
Qed.

Lemma restarting_after count s :
  runs (restarting cfg world strftime count s) = runs s /\
  clock (restarting cfg world strftime count s)
  = clock s + seconds (Z.of_N (RESTART_DELAY cfg)) + Z.of_N (sleep_over (world count)) /\
  grows s (restarting cfg world strftime count s).
Proof.
  unfold restarting, bind, time_sleep, elapse, modify. simpl.
  split; [done|]. split; [lia|]. eexists. simpl. reflexivity.
Qed.

Lemma logged_grows message s : grows s (logged strftime message s).
Proof. eexists. simpl. reflexivity. Qed.

(** The course of the loop: children started, time gone by, and the log
    file. *)
Lemma supervised_course count ts s e verdicts s' :
  supervised cfg world strftime count ts s e verdicts s' ->
  runs s' = (runs s + length verdicts)%nat /\
  clock s + seconds (Z.of_N (RESTART_DELAY cfg)) * Z.of_nat (restarts e verdicts)
    <= clock s' /\
  grows s s' /\
  (e <> Exhausted -> (0 < length verdicts)%nat).
Proof.
  induction 1 as [count ts s s1 Hlt Hrun
                 |count ts s s1 s2 Hlt Hrun Hcheck
                 |count ts s s1 s2 e verdicts s' Hlt Hrun Hcheck _ IH
                 |count ts s Hge].
  - destruct (run_scraper_after s) as (Hr & Hc & Hg & _).
    rewrite Hrun in Hr, Hc, Hg. simpl in *.
    split; [lia|]. split; [lia|]. split; [|lia].
    eapply grows_trans; [exact Hg|apply logged_grows].
  - destruct (run_scraper_after s) as (Hr & Hc & Hg & _).
    rewrite Hrun in Hr, Hc, Hg.
    destruct (check_failure_threshold_after (deque_append 1000 ts (clock s1)) s1)
      as (Hr2 & Hc2 & Hg2).
    rewrite Hcheck in Hr2, Hc2, Hg2. simpl in *.
    split; [lia|]. split; [lia|]. split; [|lia].
    eapply grows_trans; [exact Hg|].
    eapply grows_trans; [exact Hg2|apply logged_grows].
  - destruct (run_scraper_after s) as (Hr & Hc & Hg & _).
    rewrite Hrun in Hr, Hc, Hg.
    destruct (check_failure_threshold_after (deque_append 1000 ts (clock s1)) s1)
      as (Hr2 & Hc2 & Hg2).
    rewrite Hcheck in Hr2, Hc2, Hg2.
    destruct (restarting_after count s2) as (Hr3 & Hc3 & Hg3).
    destruct IH as (IHr & IHc & IHg & IHn). simpl in *.
    split; [lia|]. split; [|split; [|lia]].
    + assert (restarts e (false :: verdicts) = S (restarts e verdicts)) as ->.
      { destruct e; simpl; try done;
          (assert (0 < length verdicts)%nat by (by apply IHn)); lia. }
      rewrite Nat2Z.inj_succ, Z.mul_succ_r. unfold seconds in *. lia.
    + eapply grows_trans; [exact Hg|].
      eapply grows_trans; [exact Hg2|].
      eapply grows_trans; [exact Hg3|exact IHg].
  - simpl. split; [lia|]. split; [lia|]. split; [apply logged_grows|done].
Qed.

Lemma deque_append_length {A : Type} (n : nat) (d : list A) (x : A) :
  (0 < n)%nat -> (length d <= n)%nat ->
  (length (deque_append n d x) <= n)%nat /\
  (length (deque_append n d x) <= S (length d))%nat.
Proof.
  intros Hn Hd. unfold deque_append. case_decide.
  - destruct d as [|y d]; simpl in *; [lia|]. rewrite length_app. simpl. lia.
  - rewrite length_app. simpl. lia.
Qed.

(** When the breaker trips, that many failures have been recorded. *)
Lemma supervised_tripped count ts s e verdicts s' :
  supervised cfg world strftime count ts s e verdicts s' ->
  e = Tripped -> (length ts <= 1000)%nat ->
  max_failures cfg <= Z.of_nat (length ts + length verdicts) /\
  max_failures cfg <= 1000.
Proof.
  induction 1 as [count ts s s1 Hlt Hrun
                 |count ts s s1 s2 Hlt Hrun Hcheck
                 |count ts s s1 s2 e verdicts s' Hlt Hrun Hcheck _ IH
                 |count ts s Hge]; intros He Hts; try done.
  - pose proof (check_failure_threshold_verdict cfg strftime
                  (deque_append 1000 ts (clock s1)) s1) as Hv.
    rewrite Hcheck in Hv. simpl in Hv. injection Hv as Hv.
    symmetry in Hv. apply bool_decide_eq_true_1 in Hv.
    pose proof (counted_le_length cfg (clock s1) (deque_append 1000 ts (clock s1))).
    destruct (deque_append_length 1000 ts (clock s1) ltac:(lia) Hts). simpl. lia.
  - destruct (deque_append_length 1000 ts (clock s1) ltac:(lia) Hts) as [H1 H2].
    destruct (IH He H1). simpl. lia.
Qed.

(** X13 (children started). [main] starts one child per run attempt and
    no other: at most [MAX_RESTARTS] of them in all, exactly [MAX_RESTARTS]
    when it gives up for lack of restarts, and at least one whenever
    [MAX_RESTARTS] is not zero. *)
Theorem children_bounded (s : state) :
  exists (e : ending) (verdicts : list bool) (s' : state),
    main cfg world strftime s = (Ok (Some (exit_status e)), s') /\
    supervised cfg world strftime 0 [] (started strftime s) e verdicts s' /\
    runs s' = (runs s + length verdicts)%nat /\
    (runs s' <= runs s + MAX_RESTARTS cfg)%nat /\
    (e = Exhausted -> runs s' = (runs s + MAX_RESTARTS cfg)%nat) /\
    ((0 < MAX_RESTARTS cfg)%nat -> (runs s < runs s')%nat).
Proof.
  destruct (restart_loop_supervised cfg world strftime (MAX_RESTARTS cfg) 0 []
              (started strftime s) ltac:(lia)) as (e & verdicts & s' & Hloop & Hsup).
  exists e, verdicts, s'. split; [exact Hloop|]. split; [exact Hsup|].
  destruct (supervised_verdicts _ _ _ _ _ _ _ _ _ Hsup) as (_ & Hlen & Hex).
  destruct (supervised_course _ _ _ _ _ _ Hsup) as (Hruns & _ & _ & Hne).
  simpl in Hruns. split; [exact Hruns|]. split; [lia|]. split.
  - intros He. destruct (Hex He) as [_ Hl]. lia.
  - intros Hpos. destruct e.
    + specialize (Hne ltac:(done)). lia.
    + specialize (Hne ltac:(done)). lia.
    + destruct (Hex eq_refl) as [_ Hl]. lia.
Qed.

(** X14 (restarts are spaced). Before every attempt but the first, [main]
    has waited for [RESTART_DELAY] seconds at least: a session in which
    [k] restarts were counted has lasted [k] times that long or longer. *)
Theorem restarts_are_spaced (s : state) :
  exists (e : ending) (verdicts : list bool) (s' : state),
    main cfg world strftime s = (Ok (Some (exit_status e)), s') /\
    supervised cfg world strftime 0 [] (started strftime s) e verdicts s' /\
    clock s + seconds (Z.of_N (RESTART_DELAY cfg)) * Z.of_nat (restarts e verdicts)
      <= clock s'.
Proof.
  destruct (restart_loop_supervised cfg world strftime (MAX_RESTARTS cfg) 0 []
              (started strftime s) ltac:(lia)) as (e & verdicts & s' & Hloop & Hsup).
  exists e, verdicts, s'. split; [exact Hloop|]. split; [exact Hsup|].
  by destruct (supervised_course _ _ _ _ _ _ Hsup) as (_ & Hclock & _).
Qed.

(** X15 (the breaker needs its failures). When [main] is stopped by the
    circuit breaker, at least [max_failures] attempts were made, all of them
    judged failed; and since no more than 1000 failures are remembered and
    no more than [MAX_RESTARTS] attempts are made, a threshold above either
    number never stops it. *)
Theorem breaker_needs_failures (s : state) :
  exists (e : ending) (verdicts : list bool) (s' : state),
    main cfg world strftime s = (Ok (Some (exit_status e)), s') /\
    supervised cfg world strftime 0 [] (started strftime s) e verdicts s' /\
    (e = Tripped ->
     max_failures cfg <= Z.of_nat (length verdicts) /\
     Forall (fun v => v = false) verdicts /\
     max_failures cfg <= 1000 /\
     max_failures cfg <= Z.of_nat (MAX_RESTARTS cfg)).
Proof.
  destruct (restart_loop_supervised cfg world strftime (MAX_RESTARTS cfg) 0 []
              (started strftime s) ltac:(lia)) as (e & verdicts & s' & Hloop & Hsup).
  exists e, verdicts, s'. split; [exact Hloop|]. split; [exact Hsup|].
  intros He.
  destruct (supervised_verdicts _ _ _ _ _ _ _ _ _ Hsup) as (Hiff & Hlen & _).
  destruct (supervised_tripped _ _ _ _ _ _ Hsup He) as [Hmax H1000]; [simpl; lia|].
  simpl in Hmax. split; [exact Hmax|]. split; [|lia].
  apply Forall_forall. intros [] Hv; [|done].
  apply Hiff in Hv. by subst e.
Qed.

(** X16 (the log file of a session). [main] begins the log file anew,
    whatever it held, with its two opening lines, and from then on nothing
    is taken away from it: the file it leaves starts with those lines. *)
Theorem main_log_begins_anew (s : state) :
  exists more : string,
    log_file (main cfg world strftime s).2
    = Some (header strftime (clock s) +:+ more).
Proof.
  destruct (restart_loop_supervised cfg world strftime (MAX_RESTARTS cfg) 0 []
              (started strftime s) ltac:(lia)) as (e & verdicts & s' & Hloop & Hsup).
  destruct (supervised_course _ _ _ _ _ _ Hsup) as (_ & _ & [more Hg] & _).
  assert (main cfg world strftime s = (Ok (Some (exit_status e)), s')) as ->
    by exact Hloop.
  exists more. simpl.
  assert (exists data, log_file s' = Some data) as [data Hdata].
  { clear Hg Hloop. induction Hsup; try by eexists. done. }
  rewrite Hdata in Hg |- *. simpl in Hg. by rewrite Hg.
Qed.

Lemma grows_poisoned s s' :
  grows s s' -> is_failure (default "" (log_file s)) = true ->
  is_failure (default "" (log_file s')) = true.
Proof. intros [more ->] H. by apply is_failure_append_l. Qed.

(** X17 (a signature dooms the session). Once a child has printed a
    failure signature the supervisor cannot end with status 0: the attempt
    is judged failed whatever its exit status, the signature stays in the log
    file that every later verdict reads, and the loop ends with status 1
    when the breaker trips or the restarts run out. *)
Theorem signature_dooms_session (fuel restart_count : nat) (failure_timestamps : list Z)
    (s : state) (transcript : list string) (ending : result Z) :
  (MAX_RESTARTS cfg - restart_count <= fuel)%nat ->
  run (world (runs s)) = Ran transcript ending ->
  is_failure (Text.joined transcript) = true ->
  (restart_loop cfg world strftime fuel restart_count failure_timestamps s).1
  = Ok (Some 1).
Proof.
  intros Hfuel Hran Hsig.
  destruct (restart_loop_supervised cfg world strftime fuel restart_count
              failure_timestamps s Hfuel) as (e & verdicts & s' & Hloop & Hsup).
  rewrite Hloop. simpl.
  assert (e <> Succeeded) as Hne; [|by destruct e].
  destruct (run_scraper_after s) as (_ & _ & _ & Hlog).
  destruct (Hlog _ _ Hran) as [rest Hrest].
  assert (is_failure (default "" (log_file (run_scraper world strftime s).2)) = true)
    as Hpoison.
  { rewrite Hrest. by apply is_failure_append_l, is_failure_append_r. }
  inversion Hsup as [count ts s0 s1 Hlt Hrun
                    |count ts s0 s1 s2 Hlt Hrun Hcheck
                    |count ts s0 s1 s2 e0 verdicts0 s0' Hlt Hrun Hcheck Hrest'
                    |count ts s0 Hge]; subst; try done.
  - pose proof (run_scraper_eq world strftime s) as Heq.
    rewrite Hran, Hrun in Heq.
    destruct ending as [code|ex]; cbv zeta in Heq; [|done].
    rewrite is_failure_append_r, orb_true_r in Heq by done. done.
  - rewrite Hrun in Hpoison. simpl in Hpoison.
    destruct (check_failure_threshold_after
                (deque_append 1000 failure_timestamps (clock s1)) s1) as (_ & _ & Hg2).
    rewrite Hcheck in Hg2. simpl in Hg2.
    destruct (restarting_after restart_count s2) as (_ & _ & Hg3).
    apply (poisoned_log_never_succeeds cfg world strftime _ _ _ _ _ _
             (grows_poisoned _ _ Hg3 (grows_poisoned _ _ Hg2 Hpoison)) Hrest').
Qed.

(** X18 (when a run is judged successful). [run_scraper] always answers,
    and it answers [True] in one case only: the child was started, its
    output was read to the end, it exited with status 0, and the log file,
    what it held before together with what the child printed, shows no
    failure signature. *)
Theorem run_succeeds_iff (s : state) :
  ((run_scraper world strftime s).1 = Ok true <->
   exists transcript : list string,
     run (world (runs s)) = Ran transcript (Ok 0) /\
     is_failure (default "" (log_file s) +:+ Text.joined transcript) = false) /\
  ((run_scraper world strftime s).1 = Ok true \/
   (run_scraper world strftime s).1 = Ok false).
Proof.
  rewrite run_scraper_eq.
  destruct (run (world (runs s))) as [e|transcript [code|e]]; cbv zeta.
  - split; [|by right]. split; [done|]. by intros (t & Ht & _).
  - destruct (decide (code = 0)) as [->|Hcode].
    + rewrite (bool_decide_eq_false_2 (0 <> 0)) by (intros H; by apply H).
      destruct (is_failure _) eqn:Hlog; simpl.
      * split; [|by right]. split; [done|].
        intros (t & [= <-] & Ht). by rewrite Ht in Hlog.
      * split; [|by left]. split; [|done]. intros _. by exists transcript.
    + rewrite (bool_decide_eq_true_2 (code <> 0)) by done. simpl.
      split; [|by right]. split; [done|]. intros (t & [= _ ->] & _). done.
  - split; [|by right]. split; [done|]. by intros (t & Ht & _).
Qed.

End World.

Lemma signature_dooms_session_witness :
  (restart_loop patient reset_child (fun _ => "") 3 0 [] (boot 0 None)).1
  = Ok (Some 1).
Proof.
  apply (signature_dooms_session patient reset_child (fun _ => "") 3 0 [] (boot 0 None)
           ["OSError: Connection reset by peer" +:+ Text.newline] (Ok 0)).
  - simpl. lia.
  - reflexivity.
  - vm_compute. reflexivity.
Defined.

(** The first attempt of a session, on the log file as [main] has just
    begun it. *)
Lemma clean_log_verdict_witness :
  (run_scraper good_child (fun _ => "2025-01-01 00:00:00")
     (started (fun _ => "2025-01-01 00:00:00") (boot 0 None))).1
  = Ok (bool_decide (0 = 0)
        && negb (is_failure (Text.joined ["Done Scraping Data!" +:+ Text.newline]))).
Proof.
  apply (clean_log_verdict good_child (fun _ => "2025-01-01 00:00:00")
           (started (fun _ => "2025-01-01 00:00:00") (boot 0 None))
           ["Done Scraping Data!" +:+ Text.newline] 0).
  - reflexivity.
  - vm_compute. reflexivity.
  - vm_compute. reflexivity.
Defined.

End Session.
